(** * Turkey Run: the simulation core, embedded and verified

    A shallow embedding of the per-frame simulation of the lane runner:
    the [Player] component (jump state machine, vertical physics, damage
    handler) and the [LevelManager] component (entity movement, collision,
    spawning, pruning, the reset effect).

    Numbers.  JavaScript numbers are modelled as exact rationals [Q]:
    decimal literals stand for the rationals they denote and arithmetic is
    exact, so rounding of IEEE doubles is not part of the model.  Integral
    quantities that the code only ever counts (lives, score, level, jump
    count, lane) are [Z].  Equality of computed rationals is [Qeq] ([==]).

    Mutable refs ([useRef]) become record fields threaded through the
    functions; values a callback closes over (the store fields read at
    render time) are a read-only snapshot taken when the frame starts. *)

From Stdlib Require Import QArith Qabs Qround Qminmax Qpower Qfield.
From Stdlib Require Import ZArith List Bool String Lia Lqa.
Import ListNotations.

Open Scope Q_scope.

(* ================================================================== *)
(** ** Numbers *)

Module Num.

(** [a < b] on JavaScript numbers, as a boolean. *)
Definition ltb (a b : Q) : bool := negb (Qle_bool b a).

(** [a <= b], [a > b], [a >= b]. *)
Definition leb (a b : Q) : bool := Qle_bool a b.
Definition gtb (a b : Q) : bool := ltb b a.
Definition geb (a b : Q) : bool := leb b a.

(** [Math.PI]: the double nearest to pi, which is this rational. *)
Definition PI : Q := 884279719003555 # 281474976710656.

(** [Math.min(...xs)] for a non-empty argument list [x :: xs]. *)
Definition minOf (x : Q) (xs : list Q) : Q := fold_left Qmin xs x.

(** [THREE.MathUtils.lerp(x, y, t)]. *)
Definition lerp (x y t : Q) : Q := (1 - t) * x + t * y.

End Num.

(* ================================================================== *)
(** ** Shared types ([types.ts]) and the store

    The components import their enumerations, the object shape and a few
    constants from [types.ts] and [store.ts].  The enumerations and the
    shape below are the ones the components use; the imported constants
    are the fields of [Config], left open. *)

Inductive GameStatus := MENU | PLAYING | SHOP | GAME_OVER | VICTORY.

Inductive ObjectType := OBSTACLE | GEM | LETTER | SHOP_PORTAL | ALIEN | MISSILE.

Definition GameStatus_eqb (a b : GameStatus) : bool :=
  match a, b with
  | MENU, MENU | PLAYING, PLAYING | SHOP, SHOP
  | GAME_OVER, GAME_OVER | VICTORY, VICTORY => true
  | _, _ => false
  end.

Definition ObjectType_eqb (a b : ObjectType) : bool :=
  match a, b with
  | OBSTACLE, OBSTACLE | GEM, GEM | LETTER, LETTER
  | SHOP_PORTAL, SHOP_PORTAL | ALIEN, ALIEN | MISSILE, MISSILE => true
  | _, _ => false
  end.

(** A position [[x, y, z]]. *)
Record Vec3 := mkVec3 { X : Q; Y : Q; Z_ : Q }.

(** [GameObject]: one shape for all kinds, optional fields are [option]
    ([None] is JavaScript's [undefined]). *)
Record GameObject := mkObj {
  id : nat;
  type : ObjectType;
  position : Vec3;
  active : bool;
  color : option string;
  value : option string;
  targetIndex : option nat;
  points : option Z;
  hasFired : option bool
}.

(** Constants imported from [types.ts] and [store.ts]. *)
Record Config := mkConfig {
  LANE_WIDTH : Q;
  SPAWN_DISTANCE : Q;
  REMOVE_DISTANCE : Q;
  TARGET_WORD : list string;
  THEME_COLORS : list string
}.

Module Store.

Record t := mk {
  status : GameStatus;
  score : Z;
  lives : Z;
  maxLives : Z;
  level : Z;
  collectedLetters : list nat;
  distance : Z;
  speed : Q;
  laneCount : Z;
  hasDoubleJump : bool;
  hasImmortality : bool;
  isImmortalityActive : bool
}.

Definition with_status (v : GameStatus) (s : t) : t :=
  mk v (score s) (lives s) (maxLives s) (level s) (collectedLetters s)
     (distance s) (speed s) (laneCount s) (hasDoubleJump s)
     (hasImmortality s) (isImmortalityActive s).

Definition with_score (v : Z) (s : t) : t :=
  mk (status s) v (lives s) (maxLives s) (level s) (collectedLetters s)
     (distance s) (speed s) (laneCount s) (hasDoubleJump s)
     (hasImmortality s) (isImmortalityActive s).

Definition with_lives (v : Z) (s : t) : t :=
  mk (status s) (score s) v (maxLives s) (level s) (collectedLetters s)
     (distance s) (speed s) (laneCount s) (hasDoubleJump s)
     (hasImmortality s) (isImmortalityActive s).

Definition with_letters (v : list nat) (s : t) : t :=
  mk (status s) (score s) (lives s) (maxLives s) (level s) v
     (distance s) (speed s) (laneCount s) (hasDoubleJump s)
     (hasImmortality s) (isImmortalityActive s).

Definition with_distance (v : Z) (s : t) : t :=
  mk (status s) (score s) (lives s) (maxLives s) (level s)
     (collectedLetters s) v (speed s) (laneCount s) (hasDoubleJump s)
     (hasImmortality s) (isImmortalityActive s).

(** [collectedLetters.includes(i)]. *)
Definition includes (l : list nat) (i : nat) : bool := existsb (Nat.eqb i) l.

(** Modelled from the spec: the store's [takeDamage] is outside the
    two components.  "Damage outcome: lives -= 1; if lives reach 0,
    transition to GameOver". *)
Definition takeDamage (s : t) : t :=
  let s1 := with_lives (lives s - 1)%Z s in
  if (lives s1 <=? 0)%Z then with_status GAME_OVER s1 else s1.

(** Modelled from the spec: the store's [collectGem] is outside the
    two components.  "Score-add outcome: update score". *)
Definition collectGem (pts : Z) (s : t) : t := with_score (score s + pts)%Z s.

(** Modelled from the spec: the store's [collectLetter] is outside the
    two components.  "letter-collected: update the collected-letters set;
    if it now equals the full word and level is already 3, transition to
    Victory"; the set has no duplicates. *)
Definition collectLetter (wordLength : nat) (i : nat) (s : t) : t :=
  if includes (collectedLetters s) i then s
  else
    let s1 := with_letters (collectedLetters s ++ [i]) s in
    if ((List.length (collectedLetters s1) =? wordLength)%nat && (level s =? 3)%Z)%bool
    then with_status VICTORY s1 else s1.

(** Modelled from the spec: the store's [openShop] is outside the two
    components.  "Shop-entry outcome: transition Playing -> Shop". *)
Definition openShop (s : t) : t := with_status SHOP s.

(** Modelled from the spec: the store's [setDistance] is outside the
    two components; it records the final distance. *)
Definition setDistance (d : Z) (s : t) : t := with_distance d s.

(** Modelled from the spec: the store's [activateImmortality] is outside
    the two components.  "UseSkill activates a timed invincibility effect
    if unlocked and not already active"; the expiry of the effect is the
    store's own timer and is not modelled. *)
Definition activateImmortality (s : t) : t :=
  if (hasImmortality s && negb (isImmortalityActive s))%bool
  then mk (status s) (score s) (lives s) (maxLives s) (level s)
          (collectedLetters s) (distance s) (speed s) (laneCount s)
          (hasDoubleJump s) (hasImmortality s) true
  else s.


End Store.

(* ================================================================== *)
(** ** Observable effects of a frame

    Calls into the store and events dispatched on [window], in program
    order.  Audio calls and React re-render triggers are not recorded. *)

Inductive Effect :=
| CallTakeDamage
| CallCollectGem (pts : Z)
| CallCollectLetter (i : nat)
| CallOpenShop
| CallSetDistance (d : Z)
| CallActivateImmortality
| DispatchPlayerHit
| DispatchParticleBurst (pos : Vec3) (col : string).

(** The part of the world a frame can change outside the component that
    runs it: the store and the log of effects. *)
Record World := mkWorld {
  store : Store.t;
  log : list Effect
}.

Definition emit (e : Effect) (w : World) : World :=
  mkWorld (store w) (log w ++ [e]).

Definition isCallTakeDamage (e : Effect) : bool :=
  match e with CallTakeDamage => true | _ => false end.

Definition isCallOpenShop (e : Effect) : bool :=
  match e with CallOpenShop => true | _ => false end.

Definition countEffect (f : Effect -> bool) (l : list Effect) : nat :=
  List.length (filter f l).

(** How often the shop has been opened so far. *)
Definition countOpenShop (w : World) : nat :=
  countEffect isCallOpenShop (log w).

(** How often [takeDamage] has been called so far. *)
Definition countTakeDamage (w : World) : nat :=
  countEffect isCallTakeDamage (log w).

(* ================================================================== *)
(** ** The Player component *)

Module Player.

Definition GRAVITY : Q := 50.
Definition JUMP_FORCE : Q := 16.

(** The jump refs and the height of the player's group
    ([groupRef.current.position.y]). *)
Record Physics := mkPhysics {
  posY : Q;
  isJumping : bool;
  velocityY : Q;
  jumpsPerformed : Z;
  spinRotation : Q
}.

(** All simulation state of the component: the [lane] React state, the
    horizontal render offset, the jump refs and the damage refs.  The
    group and body refs are taken to be mounted; rotations, visibility and
    the limb animation are rendering only and are left out. *)
Record Refs := mkRefs {
  lane : Z;
  targetX : Q;
  posX : Q;
  phys : Physics;
  isInvincible : bool;
  lastDamageTime : Z
}.

Definition with_phys (ph : Physics) (p : Refs) : Refs :=
  mkRefs (lane p) (targetX p) (posX p) ph (isInvincible p) (lastDamageTime p).

Definition with_lane (l : Z) (p : Refs) : Refs :=
  mkRefs l (targetX p) (posX p) (phys p) (isInvincible p) (lastDamageTime p).

(** State of a freshly mounted component. *)
Definition initial : Refs :=
  mkRefs 0%Z 0 0 (mkPhysics 0 false 0 0%Z 0) false 0%Z.

(** The effect on [status]: entering PLAYING resets the jump refs and the
    height. *)
Definition onStatus (status : GameStatus) (p : Refs) : Refs :=
  match status with
  | PLAYING => with_phys (mkPhysics 0 false 0 0%Z 0) p
  | _ => p
  end.

(** The effect on [laneCount]: the lane is clamped to the new bound. *)
Definition onLaneCount (laneCount : Z) (p : Refs) : Refs :=
  let maxLane := (laneCount / 2)%Z in
  if (maxLane <? Z.abs (lane p))%Z
  then with_lane (Z.max (Z.min (lane p) maxLane) (- maxLane)) p
  else p.

(** [maxJumps] of [triggerJump]. *)
Definition maxJumpsOf (hasDoubleJump : bool) : Z :=
  if hasDoubleJump then 2%Z else 1%Z.

(** [triggerJump]. *)
Definition triggerJump (hasDoubleJump : bool) (s : Physics) : Physics :=
  let maxJumps := maxJumpsOf hasDoubleJump in
  if negb (isJumping s) then
    mkPhysics (posY s) true JUMP_FORCE 1%Z (spinRotation s)
  else if (jumpsPerformed s <? maxJumps)%Z then
    mkPhysics (posY s) (isJumping s) JUMP_FORCE (jumpsPerformed s + 1)%Z 0
  else s.

(** The abstract commands the key and touch handlers produce. *)
Inductive Command := MoveLeft | MoveRight | Jump | UseSkill.

(** [handleKeyDown] / [handleTouchEnd] once the gesture is decoded:
    nothing happens unless the status is PLAYING. *)
Definition applyCommand (c : Command) (pw : Refs * World) : Refs * World :=
  let '(p, w) := pw in
  let st := store w in
  match Store.status st with
  | PLAYING =>
      let maxLane := (Store.laneCount st / 2)%Z in
      match c with
      | MoveLeft => (with_lane (Z.max (lane p - 1) (- maxLane)) p, w)
      | MoveRight => (with_lane (Z.min (lane p + 1) maxLane) p, w)
      | Jump => (with_phys (triggerJump (Store.hasDoubleJump st) (phys p)) p, w)
      | UseSkill =>
          (p, mkWorld (Store.activateImmortality st)
                      (log w ++ [CallActivateImmortality]))
      end
  | _ => pw
  end.

(** Step 2 of the frame callback, "Physics (Jump)", on elapsed time
    [delta]: the statements in the order of the source. *)
Definition stepPhysics (delta : Q) (s : Physics) : Physics :=
  if isJumping s then
    let y1 := posY s + velocityY s * delta in
    let v1 := velocityY s - GRAVITY * delta in
    let s1 :=
      if Num.leb y1 0
      then mkPhysics 0 false 0 0%Z (spinRotation s)
      else mkPhysics y1 (isJumping s) v1 (jumpsPerformed s) (spinRotation s) in
    if (jumpsPerformed s1 =? 2)%Z then
      let r := spinRotation s1 - delta * 15 in
      let r' := if Num.ltb r (- Num.PI * 2) then - Num.PI * 2 else r in
      mkPhysics (posY s1) (isJumping s1) (velocityY s1) (jumpsPerformed s1) r'
    else s1
  else s.

(** The "Invincibility" block of the frame callback: the damage window
    closes once more than 1500 ms have passed since the last damage. *)
Definition stepInvincible (isImmortalityActive : bool) (now : Z) (p : Refs)
  : Refs :=
  if (isInvincible p || isImmortalityActive)%bool then
    if isInvincible p then
      if (1500 <? now - lastDamageTime p)%Z
      then mkRefs (lane p) (targetX p) (posX p) (phys p) false (lastDamageTime p)
      else p
    else p
  else p.

(** The frame callback.  [delta] is the elapsed time handed over by the
    render loop and is used as it comes; [now] is [Date.now()]. *)
Definition useFrame (LANE_WIDTH : Q) (st : Store.t) (now : Z) (delta : Q)
  (p : Refs) : Refs :=
  match Store.status st with
  | PLAYING | SHOP =>
      let tx := inject_Z (lane p) * LANE_WIDTH in
      let x1 := Num.lerp (posX p) tx (delta * 15) in
      let p1 := mkRefs (lane p) tx x1 (stepPhysics delta (phys p))
                       (isInvincible p) (lastDamageTime p) in
      stepInvincible (Store.isImmortalityActive st) now p1
  | _ => p
  end.

(** [checkHit], the listener of the [player-hit] window event. *)
Definition checkHit (isImmortalityActive : bool) (now : Z)
  (pw : Refs * World) : Refs * World :=
  let '(p, w) := pw in
  if (isInvincible p || isImmortalityActive)%bool then pw
  else
    (mkRefs (lane p) (targetX p) (posX p) (phys p) true now,
     mkWorld (Store.takeDamage (store w)) (log w ++ [CallTakeDamage])).

(** Modelled from the spec: the integration step in the order the
    specification writes it, "velocity -= GRAVITY * dt; height += velocity
    * dt", for comparison with [stepPhysics]. *)
Definition specIntegrate (dt : Q) (s : Physics) : Physics :=
  let v1 := velocityY s - GRAVITY * dt in
  let y1 := posY s + v1 * dt in
  mkPhysics y1 (isJumping s) v1 (jumpsPerformed s) (spinRotation s).

(** One transition of the component: the store changes status and the
    status effect runs, the lane count changes, a command arrives, a frame
    is rendered, a [player-hit] event is delivered. *)
Inductive Transition :=
| TStatus (status : GameStatus)
| TLaneCount (laneCount : Z)
| TCommand (c : Command)
| TFrame (LANE_WIDTH : Q) (now : Z) (delta : Q)
| THit (now : Z).

Definition transition (t : Transition) (pw : Refs * World) : Refs * World :=
  let '(p, w) := pw in
  match t with
  | TStatus s =>
      (onStatus s p, mkWorld (Store.with_status s (store w)) (log w))
  | TLaneCount n => (onLaneCount n p, w)
  | TCommand c => applyCommand c pw
  | TFrame lw now delta => (useFrame lw (store w) now delta p, w)
  | THit now => checkHit (Store.isImmortalityActive (store w)) now pw
  end.

Definition run (ts : list Transition) (pw : Refs * World) : Refs * World :=
  fold_left (fun acc t => transition t acc) ts pw.

(** What a reachable player state satisfies: on the ground the jump count,
    the vertical velocity and the height are zero; in the air at least one
    jump has been performed. *)
Definition Settled (s : Physics) : Prop :=
  (isJumping s = false ->
   jumpsPerformed s = 0%Z /\ velocityY s = 0 /\ posY s = 0)
  /\ (isJumping s = true -> (1 <= jumpsPerformed s)%Z).

(** The frames of a run hand over an elapsed time that is not negative. *)
Definition elapsedNonneg (t : Transition) : Prop :=
  match t with
  | TFrame _ _ delta => 0 <= delta
  | _ => True
  end.

End Player.

(* ================================================================== *)
(** ** The LevelManager component *)

Module LevelManager.

Definition BASE_LETTER_INTERVAL : Q := 150.
Definition MISSILE_SPEED : Q := 20.

(** [getLetterInterval]: [Math.pow] at an integral exponent. *)
Definition getLetterInterval (level : Z) : Q :=
  BASE_LETTER_INTERVAL * 1.5 ^ (Z.max 0 (level - 1)).

(** The two sources of fresh values: [Math.random()] and [uuidv4()].
    The random numbers come from an oracle [rnd], read at [cursor]; ids
    are handed out in sequence. *)
Record Gen := mkGen { cursor : nat; nextId : nat }.

Definition M (A : Type) : Type := Gen -> A * Gen.

Definition ret {A} (a : A) : M A := fun g => (a, g).

Definition bind {A B} (m : M A) (k : A -> M B) : M B :=
  fun g => let '(a, g1) := m g in k a g1.

Notation "x <- m ;; k" := (bind m (fun x => k))
  (at level 61, m at next level, right associativity).

Definition uuidv4 : M nat :=
  fun g => (nextId g, mkGen (cursor g) (S (nextId g))).

(** The refs of the component. *)
Record Refs := mkRefs {
  objects : list GameObject;
  prevStatus : GameStatus;
  prevLevel : Z;
  distanceTraveled : Q;
  nextLetterDistance : Q
}.

(** Everything a frame or an effect of the component reads and writes:
    its own refs, the player's refs (through the [player-hit] listener),
    the store with the effect log, and the fresh-value supply. *)
Record Sim := mkSim {
  refs : Refs;
  player : Player.Refs;
  world : World;
  gen : Gen
}.

(** What the render loop hands to a frame: the elapsed time, the world
    position of the player object, and the wall clock. *)
Record FrameIn := mkFrameIn {
  delta : Q;
  playerPos : Vec3;
  now : Z
}.

Definition isDamageSource (t : ObjectType) : bool :=
  match t with OBSTACLE | ALIEN | MISSILE => true | _ => false end.

Definition moveZ (dz : Q) (o : GameObject) : GameObject :=
  mkObj (id o) (type o)
        (mkVec3 (X (position o)) (Y (position o)) (Z_ (position o) + dz))
        (active o) (color o) (value o) (targetIndex o) (points o) (hasFired o).

Definition deactivate (o : GameObject) : GameObject :=
  mkObj (id o) (type o) (position o) false (color o) (value o)
        (targetIndex o) (points o) (hasFired o).

Definition setFired (o : GameObject) : GameObject :=
  mkObj (id o) (type o) (position o) (active o) (color o) (value o)
        (targetIndex o) (points o) (Some true).

(** [!obj.hasFired]: true for [undefined] and [false]. *)
Definition notFired (o : GameObject) : bool :=
  match hasFired o with Some true => false | _ => true end.

(** [obj.points || 50]. *)
Definition pointsOr50 (o : GameObject) : Z :=
  match points o with
  | Some n => if (n =? 0)%Z then 50%Z else n
  | None => 50%Z
  end.

(** [obj.color || '#ff9900']. *)
Definition colorOrDefault (o : GameObject) : string :=
  match color o with
  | Some c => if String.eqb c EmptyString then "#ff9900"%string else c
  | None => "#ff9900"%string
  end.

(** The elapsed time of the frame, as the component uses it. *)
Definition safeDeltaOf (delta : Q) : Q := Qmin delta 0.05.

(** The distance an object advances in a frame. *)
Definition moveAmountOf (speed safeDelta : Q) (t : ObjectType) : Q :=
  let dist := speed * safeDelta in
  match t with
  | MISSILE => dist + MISSILE_SPEED * safeDelta
  | _ => dist
  end.

(** An object after its move, its forward distance advanced by the
    amount of its kind. *)
Definition Advanced (speed safeDelta : Q) (o o' : GameObject) : Prop :=
  id o' = id o /\ type o' = type o
  /\ X (position o') = X (position o) /\ Y (position o') = Y (position o)
  /\ Z_ (position o')
     = Z_ (position o) + moveAmountOf speed safeDelta (type o).

Definition isMissile (o : GameObject) : Prop := type o = MISSILE.

Section Frame.

Variable cfg : Config.

(** [rnd n] is the value of the [n]-th call of [Math.random()]. *)
Variable rnd : nat -> Q.

Definition random : M Q :=
  fun g => (rnd (cursor g), mkGen (S (cursor g)) (nextId g)).

(** [getRandomLane]. *)
Definition getRandomLane (laneCount : Z) : M Z :=
  let max := (laneCount / 2)%Z in
  r <- random ;;
  ret (Qfloor (r * inject_Z (max * 2 + 1)) - max)%Z.

(** State of a freshly mounted component. *)
Definition initial (st : Store.t) : Refs :=
  mkRefs [] (Store.status st) (Store.level st) 0 BASE_LETTER_INTERVAL.

(** The effect on [status] and [level]: reset, level-up or final
    distance report. *)
Definition onStatusLevel (s : Sim) : Sim :=
  let r := refs s in
  let st := store (world s) in
  let status := Store.status st in
  let level := Store.level st in
  let isRestart :=
    (GameStatus_eqb status PLAYING && GameStatus_eqb (prevStatus r) GAME_OVER)%bool in
  let isMenuReset := GameStatus_eqb status MENU in
  let isLevelUp :=
    (negb (level =? prevLevel r)%Z && GameStatus_eqb status PLAYING)%bool in
  let isVictoryReset :=
    (GameStatus_eqb status PLAYING && GameStatus_eqb (prevStatus r) VICTORY)%bool in
  if (isMenuReset || isRestart || isVictoryReset)%bool then
    mkSim (mkRefs [] status level 0 (getLetterInterval 1))
          (player s) (world s) (gen s)
  else if (isLevelUp && (1 <? level)%Z)%bool then
    let kept :=
      filter (fun o => Num.gtb (Z_ (position o)) (-80)) (objects r) in
    let '(i, g1) := uuidv4 (gen s) in
    let portal :=
      mkObj i SHOP_PORTAL (mkVec3 0 0 (-100)) true None None None None None in
    mkSim (mkRefs (kept ++ [portal]) status level (distanceTraveled r)
                  (distanceTraveled r - SPAWN_DISTANCE cfg + getLetterInterval level))
          (player s) (world s) g1
  else
    let w1 :=
      match status with
      | GAME_OVER | VICTORY =>
          let d := Qfloor (distanceTraveled r) in
          mkWorld (Store.setDistance d st) (log (world s) ++ [CallSetDistance d])
      | _ => world s
      end in
    mkSim (mkRefs (objects r) status level (distanceTraveled r)
                  (nextLetterDistance r))
          (player s) w1 (gen s).

(** *** The per-object pass of the frame *)

(** The outcome of the collision block for one object. *)
Record Collision := mkCollision {
  cobj : GameObject;
  keep : bool;
  changed : bool;
  cplayer : Player.Refs;
  cworld : World
}.

(** The vertical test of a damage source against the player's band
    [[playerPos.y, playerPos.y + 1.6]]. *)
Definition verticalOverlap (playerPos : Vec3) (obj : GameObject) : bool :=
  let playerBottom := Y playerPos in
  let playerTop := Y playerPos + 1.6 in
  let objBottom0 := Y (position obj) - 0.5 in
  let objTop0 := Y (position obj) + 0.5 in
  let '(objBottom, objTop) :=
    match type obj with
    | OBSTACLE => (0, 1.4)
    | MISSILE => (0.5, 1.5)
    | _ => (objBottom0, objTop0)
    end in
  (Num.ltb playerBottom objTop && Num.gtb playerTop objBottom)%bool.

(** The block [let keep = true; if (obj.active) { ... }]: [prevZ] is the
    forward distance before the move, [obj] the object after it. *)
Definition collide (isImmortalityActive : bool) (now : Z) (playerPos : Vec3)
  (prevZ : Q) (obj : GameObject) (p : Player.Refs) (w : World) : Collision :=
  if active obj then
    let zThreshold := 2.0 in
    let inZZone :=
      (Num.ltb prevZ (Z_ playerPos + zThreshold)
       && Num.gtb (Z_ (position obj)) (Z_ playerPos - zThreshold))%bool in
    if ObjectType_eqb (type obj) SHOP_PORTAL then
      let dz := Qabs (Z_ (position obj) - Z_ playerPos) in
      if Num.ltb dz 2 then
        mkCollision (deactivate obj) false true p
          (mkWorld (Store.openShop (store w)) (log w ++ [CallOpenShop]))
      else mkCollision obj true false p w
    else if inZZone then
      let dx := Qabs (X (position obj) - X playerPos) in
      if Num.ltb dx 0.9 then
        if isDamageSource (type obj) then
          if verticalOverlap playerPos obj then
            let '(p1, w1) :=
              Player.checkHit isImmortalityActive now
                              (p, emit DispatchPlayerHit w) in
            mkCollision (deactivate obj) true true p1
              (emit (DispatchParticleBurst (position obj) "#deb887") w1)
          else mkCollision obj true false p w
        else
          let dy := Qabs (Y (position obj) - Y playerPos) in
          if Num.ltb dy 2.5 then
            let w1 :=
              match type obj with
              | GEM =>
                  mkWorld (Store.collectGem (pointsOr50 obj) (store w))
                          (log w ++ [CallCollectGem (pointsOr50 obj)])
              | _ => w
              end in
            let w2 :=
              match type obj, targetIndex obj with
              | LETTER, Some i =>
                  mkWorld (Store.collectLetter (List.length (TARGET_WORD cfg)) i
                                               (store w1))
                          (log w1 ++ [CallCollectLetter i])
              | _, _ => w1
              end in
            mkCollision (deactivate obj) true true p
              (emit (DispatchParticleBurst (position obj) (colorOrDefault obj)) w2)
          else mkCollision obj true false p w
      else mkCollision obj true false p w
    else mkCollision obj true false p w
  else mkCollision obj true false p w.

(** The variables of the [for] loop over the current objects.  [moved]
    is the array [objectsRef.current] itself, whose elements the loop
    mutates in place. *)
Record Loop := mkLoop {
  hasChanges : bool;
  moved : list GameObject;
  keptObjects : list GameObject;
  newSpawns : list GameObject;
  lplayer : Player.Refs;
  lworld : World;
  lgen : Gen
}.

(** The projectile a scarecrow throws. *)
Definition missileOf (i : nat) (obj : GameObject) : GameObject :=
  mkObj i MISSILE
        (mkVec3 (X (position obj)) 1.0 (Z_ (position obj) + 2))
        true (Some "#8b0000"%string) None None None None.

(** One iteration of the loop. *)
Definition stepObject (isImmortalityActive : bool) (speed safeDelta : Q)
  (f : FrameIn) (acc : Loop) (obj0 : GameObject) : Loop :=
  let moveAmount := moveAmountOf speed safeDelta (type obj0) in
  let prevZ := Z_ (position obj0) in
  let obj1 := moveZ moveAmount obj0 in
  (* Scarecrow logic *)
  let fires :=
    (ObjectType_eqb (type obj1) ALIEN && active obj1 && notFired obj1
     && Num.gtb (Z_ (position obj1)) (-90))%bool in
  let obj2 := if fires then setFired obj1 else obj1 in
  let fresh := uuidv4 (lgen acc) in
  let fired := if fires then [missileOf (fst fresh) obj1] else [] in
  let g1 := if fires then snd fresh else lgen acc in
  (* collision *)
  let c := collide isImmortalityActive (now f) (playerPos f) prevZ obj2
                   (lplayer acc) (lworld acc) in
  let obj3 := cobj c in
  (* removal *)
  let tooFar := Num.gtb (Z_ (position obj3)) (REMOVE_DISTANCE cfg) in
  let keep' := (keep c && negb tooFar)%bool in
  mkLoop (hasChanges acc || fires || changed c || tooFar)%bool
         (moved acc ++ [obj3])
         (if keep' then keptObjects acc ++ [obj3] else keptObjects acc)
         (newSpawns acc ++ fired)
         (cplayer c) (cworld c) g1.

Definition runLoop (isImmortalityActive : bool) (speed safeDelta : Q)
  (f : FrameIn) (s : Sim) : Loop :=
  fold_left (stepObject isImmortalityActive speed safeDelta f)
            (objects (refs s))
            (mkLoop false [] [] [] (player s) (world s) (gen s)).

(** [keptObjects] once the new projectiles are pushed. *)
Definition keptAfterLoop (l : Loop) : list GameObject :=
  keptObjects l ++ newSpawns l.

(** *** Spawning *)

(** [TARGET_WORD.map((_, i) => i).filter(i => !collectedLetters.includes(i))]. *)
Definition availableIndices (collected : list nat) : list nat :=
  filter (fun i => negb (Store.includes collected i))
         (seq 0 (List.length (TARGET_WORD cfg))).

(** [furthestZ]: the least forward distance among the objects that are
    not projectiles, or -20 when there is none. *)
Definition furthestZOf (kept : list GameObject) : Q :=
  match filter (fun o => negb (ObjectType_eqb (type o) MISSILE)) kept with
  | [] => -20
  | o :: os => Num.minOf (Z_ (position o)) (map (fun o' => Z_ (position o')) os)
  end.

(** A pie (collectible) in lane [lane] at height [y]. *)
Definition gemAt (i : nat) (lane : Z) (y spawnZ : Q) (pts : Z) : GameObject :=
  mkObj i GEM (mkVec3 (inject_Z lane * LANE_WIDTH cfg) y spawnZ) true
        (Some "#ff9900"%string) None None (Some pts) None.

(** [xs[Math.floor(r * xs.length)]]; [None] is [undefined]. *)
Definition pick {A} (xs : list A) (r : Q) : option A :=
  let k := Qfloor (r * inject_Z (Z.of_nat (List.length xs))) in
  if (k <? 0)%Z then None else nth_error xs (Z.to_nat k).

Definition at_ {A} (xs : list A) (i : option nat) : option A :=
  match i with Some n => nth_error xs n | None => None end.

(** What the spawning block leaves behind: the objects pushed onto
    [keptObjects], the letter threshold, and whether it set [hasChanges]. *)
Record Spawned := mkSpawned {
  pushed : list GameObject;
  nextLetter : Q;
  spawnedAny : bool
}.

(** Whether the frame has a spawn opportunity: [furthestZ > -SPAWN_DISTANCE]. *)
Definition spawnOpportunity (kept : list GameObject) : bool :=
  Num.gtb (furthestZOf kept) (- SPAWN_DISTANCE cfg).

(** [spawnZ]. *)
Definition spawnZOf (speed : Q) (kept : list GameObject) : Q :=
  let minGap := 12 + speed * 0.4 in
  Qmin (furthestZOf kept - minGap) (- SPAWN_DISTANCE cfg).

(** The probabilistic branch: hay bale (with an optional pie above it),
    scarecrow, or a lone pie. *)
Definition spawnRandom (st : Store.t) (spawnZ nextLetterDistance : Q)
  : M Spawned :=
  r1 <- random ;;
  if Num.gtb r1 0.1 then
    r2 <- random ;;
    let isObstacle := Num.gtb r2 0.20 in
    if isObstacle then
      spawnAlien <-
        (if (2 <=? Store.level st)%Z
         then r3 <- random ;; ret (Num.ltb r3 0.2)
         else ret false) ;;
      if spawnAlien then
        i <- uuidv4 ;;
        lane <- getRandomLane (Store.laneCount st) ;;
        ret (mkSpawned
               [mkObj i ALIEN
                      (mkVec3 (inject_Z lane * LANE_WIDTH cfg) 0 spawnZ) true
                      (Some "#8b4513"%string) None None None (Some false)]
               nextLetterDistance true)
      else
        lane <- getRandomLane (Store.laneCount st) ;;
        i <- uuidv4 ;;
        let bale :=
          mkObj i OBSTACLE
                (mkVec3 (inject_Z lane * LANE_WIDTH cfg) 0.7 spawnZ) true
                (Some "#deb887"%string) None None None None in
        r4 <- random ;;
        if Num.ltb r4 0.3 then
          j <- uuidv4 ;;
          ret (mkSpawned [bale; gemAt j lane 2.4 spawnZ 100]
                         nextLetterDistance true)
        else ret (mkSpawned [bale] nextLetterDistance true)
    else
      lane <- getRandomLane (Store.laneCount st) ;;
      i <- uuidv4 ;;
      ret (mkSpawned [gemAt i lane 1.2 spawnZ 50] nextLetterDistance true)
  else ret (mkSpawned [] nextLetterDistance false).

(** The letter branch, taken when [isLetterDue]. *)
Definition spawnLetter (st : Store.t) (spawnZ nextLetterDistance : Q)
  : M Spawned :=
  lane <- getRandomLane (Store.laneCount st) ;;
  let avail := availableIndices (Store.collectedLetters st) in
  if (0 <? List.length avail)%nat then
    r <- random ;;
    let chosenIndex := pick avail r in
    let val := at_ (TARGET_WORD cfg) chosenIndex in
    let col := at_ (THEME_COLORS cfg) chosenIndex in
    i <- uuidv4 ;;
    ret (mkSpawned
           [mkObj i LETTER
                  (mkVec3 (inject_Z lane * LANE_WIDTH cfg) 1.0 spawnZ) true
                  col val chosenIndex None None]
           (nextLetterDistance + getLetterInterval (Store.level st)) true)
  else
    i <- uuidv4 ;;
    ret (mkSpawned [gemAt i lane 1.2 spawnZ 50] nextLetterDistance true).

(** The whole "Spawning" block.  [st] is the store as the callback
    closed over it, [distanceTraveled] the distance after this frame's
    advance. *)
Definition spawn (st : Store.t) (distanceTraveled nextLetterDistance : Q)
  (kept : list GameObject) : M Spawned :=
  if spawnOpportunity kept then
    let spawnZ := spawnZOf (Store.speed st) kept in
    let isLetterDue := Num.geb distanceTraveled nextLetterDistance in
    if isLetterDue then spawnLetter st spawnZ nextLetterDistance
    else spawnRandom st spawnZ nextLetterDistance
  else ret (mkSpawned [] nextLetterDistance false).

(** *** The frame callback *)

(** The loop of a frame started in [s]. *)
Definition loopOf (f : FrameIn) (s : Sim) : Loop :=
  let st := store (world s) in
  runLoop (Store.isImmortalityActive st) (Store.speed st)
          (safeDeltaOf (delta f)) f s.

(** The frame callback of the component: nothing unless PLAYING. *)
Definition useFrame (f : FrameIn) (s : Sim) : Sim :=
  let st := store (world s) in
  let r := refs s in
  match Store.status st with
  | PLAYING =>
      let safeDelta := safeDeltaOf (delta f) in
      let dist := Store.speed st * safeDelta in
      let distance' := distanceTraveled r + dist in
      let l := loopOf f s in
      let kept := keptAfterLoop l in
      let '(sp, g') := spawn st distance' (nextLetterDistance r) kept (lgen l) in
      let objs :=
        if (hasChanges l || spawnedAny sp)%bool
        then kept ++ pushed sp
        else moved l in
      mkSim (mkRefs objs (prevStatus r) (prevLevel r) distance' (nextLetter sp))
            (lplayer l) (lworld l) g'
  | _ => s
  end.


(** The condition under which a scarecrow throws its pitchfork in the
    iteration that moves [o]. *)
Definition firesNow (speed safeDelta : Q) (o : GameObject) : bool :=
  let o1 := moveZ (moveAmountOf speed safeDelta (type o)) o in
  (ObjectType_eqb (type o1) ALIEN && active o1 && notFired o1
   && Num.gtb (Z_ (position o1)) (-90))%bool.

(** [Run P a s]: the simulation gets from [a] to [s] by frames of the
    component, each started in a state and with an input that satisfy [P],
    and by changes from outside the component in between (other store
    actions, the player's own frame, further fresh values).  No effect of
    the component on [status] or [level] runs in between, and nothing but
    a frame writes to the component's refs or to the effect log. *)
Inductive Run (P : FrameIn -> Sim -> Prop) (a : Sim) : Sim -> Prop :=
| run_here : Run P a a
| run_frame s f :
    Run P a s -> P f s -> Run P a (useFrame f s)
| run_outside s p st g :
    Run P a s ->
    Run P a (mkSim (refs s) p (mkWorld st (log (world s))) g).

(** Every index of the target word is collected, as the callback of a
    frame started in [s] sees it. *)
Definition lettersComplete (s : Sim) : Prop :=
  availableIndices (Store.collectedLetters (store (world s))) = [].

(** Frames run forward: the speed and the elapsed time are not negative. *)
Definition forward (f : FrameIn) (s : Sim) : Prop :=
  0 <= Store.speed (store (world s)) /\ 0 <= delta f.

(** [isLetterDue] of the frame [f] started in [s]. *)
Definition isLetterDue (f : FrameIn) (s : Sim) : bool :=
  Num.geb (distanceTraveled (refs s)
           + Store.speed (store (world s)) * safeDeltaOf (delta f))
          (nextLetterDistance (refs s)).

(** The spawning block of the frame [f] started in [s]. *)
Definition spawnOf (f : FrameIn) (s : Sim) : Spawned :=
  let st := store (world s) in
  let l := loopOf f s in
  fst (spawn st
             (distanceTraveled (refs s) + Store.speed st * safeDeltaOf (delta f))
             (nextLetterDistance (refs s)) (keptAfterLoop l) (lgen l)).



(** A portal the player reaches in this frame: active, and within 2 of
    the player's forward position once moved. *)
Definition portalReached (speed safeDelta : Q) (f : FrameIn) (o : GameObject)
  : bool :=
  (ObjectType_eqb (type o) SHOP_PORTAL && active o
   && Num.ltb (Qabs (Z_ (position o) + moveAmountOf speed safeDelta (type o)
                     - Z_ (playerPos f))) 2)%bool.

Definition isActivePortal (o : GameObject) : bool :=
  (ObjectType_eqb (type o) SHOP_PORTAL && active o)%bool.

(** [o'] is what the loop of a frame makes of [o]: it is advanced, and if
    it still is an active portal then [o] was one that the player did not
    reach in this frame. *)
Definition Stepped (speed safeDelta : Q) (f : FrameIn) (o o' : GameObject)
  : Prop :=
  Advanced speed safeDelta o o'
  /\ (isActivePortal o' = true ->
      isActivePortal o = true /\ portalReached speed safeDelta f o = false).

(** No portal is waiting in the store. *)
Definition noActivePortal (s : Sim) : Prop :=
  Forall (fun o => isActivePortal o = false) (objects (refs s)).

(** The hit condition in the words of the specification, for an object
    that was at forward distance [prevZ] before the move and is [obj]
    after it: the forward interval straddles the player within 2.0, the
    lateral offsets differ by less than 0.9, and the vertical test of the
    kind passes. *)
Definition straddles (playerPos : Vec3) (prevZ : Q) (obj : GameObject) : Prop :=
  prevZ < Z_ playerPos + 2 /\ Z_ (position obj) > Z_ playerPos - 2.

Definition lateralHit (playerPos : Vec3) (obj : GameObject) : Prop :=
  Qabs (X (position obj) - X playerPos) < 0.9.

Definition verticalHit (playerPos : Vec3) (obj : GameObject) : Prop :=
  let py := Y playerPos in
  let oy := Y (position obj) in
  match type obj with
  | OBSTACLE => py < 1.4 /\ py + 1.6 > 0
  | MISSILE => py < 1.5 /\ py + 1.6 > 0.5
  | ALIEN => py < oy + 0.5 /\ py + 1.6 > oy - 0.5
  | GEM | LETTER => Qabs (oy - py) < 2.5
  | SHOP_PORTAL => False
  end.

Definition HitCondition (playerPos : Vec3) (prevZ : Q) (obj : GameObject)
  : Prop :=
  straddles playerPos prevZ obj /\ lateralHit playerPos obj
  /\ verticalHit playerPos obj.

End Frame.

End LevelManager.

(* ================================================================== *)
(** ** The lane guides of the environment *)

Module Environment.

(** [separators] of [LaneGuides]: the lines
    [startX + i * LANE_WIDTH] for [i = 0, ..., laneCount], with
    [startX = -(laneCount * LANE_WIDTH) / 2]. *)
Definition separators (LANE_WIDTH : Q) (laneCount : Z) : list Q :=
  let startX := - (inject_Z laneCount * LANE_WIDTH) / 2 in
  map (fun i => startX + inject_Z (Z.of_nat i) * LANE_WIDTH)
      (seq 0 (Z.to_nat (laneCount + 1))).

End Environment.

(* ================================================================== *)
(** ** The particle system *)

Module ParticleSystem.

Definition PARTICLE_COUNT : nat := 400.

(** [burstAmount] of the explosion handler. *)
Definition burstAmount : nat := 30.

Record Particle := mkParticle {
  life : Q;
  pos : Vec3;
  vel : Vec3;
  rot : Vec3;
  rotVel : Vec3;
  pcolor : string
}.

(** [p.life <= 0]: the particle is free to be used by a burst. *)
Definition isDead (p : Particle) : bool := Num.leb (life p) 0.

Definition countDead (ps : list Particle) : nat :=
  List.length (filter isDead ps).

Section Burst.

(** [rnd n] is the value of the [n]-th call of [Math.random()]. *)
Variable rnd : nat -> Q.

(** The body of [if (p.life <= 0) { ... }]: seven random numbers, read
    from [c] on, in the order of the source. *)
Definition revive (position : Vec3) (color : string) (c : nat) (p : Particle)
  : Particle :=
  mkParticle (1.0 + rnd c * 0.5)
             (mkVec3 (X position) (Y position) (Z_ position))
             (mkVec3 ((rnd (c + 1) - 0.5) * 5) (rnd (c + 2) * 5)
                     ((rnd (c + 3) - 0.5) * 5))
             (mkVec3 (rnd (c + 4)) (rnd (c + 5)) (rnd (c + 6)))
             (rotVel p) color.

(** The [for] loop of [handleExplosion] from particle [i] on, with
    [spawned] particles revived so far: it stops once [burstAmount] are
    revived. *)
Fixpoint burstFrom (position : Vec3) (color : string) (spawned c : nat)
  (ps : list Particle) : list Particle * nat :=
  match ps with
  | [] => ([], c)
  | p :: rest =>
      if isDead p then
        let p' := revive position color c p in
        if (burstAmount <=? S spawned)%nat then (p' :: rest, (c + 7)%nat)
        else
          let r := burstFrom position color (S spawned) (c + 7) rest in
          (p' :: fst r, snd r)
      else
        let r := burstFrom position color spawned c rest in
        (p :: fst r, snd r)
  end.

(** [handleExplosion]: the loop runs over the first [PARTICLE_COUNT]
    particles (the array has exactly that many).  The result is the
    array and the number of random numbers used up. *)
Definition handleExplosion (position : Vec3) (color : string) (c : nat)
  (ps : list Particle) : list Particle * nat :=
  let r := burstFrom position color 0 c (firstn PARTICLE_COUNT ps) in
  (fst r ++ skipn PARTICLE_COUNT ps, snd r).

End Burst.

(** The simulation part of the frame callback for one particle. *)
Definition stepParticle (safeDelta : Q) (p : Particle) : Particle :=
  if Num.gtb (life p) 0 then
    mkParticle (life p - safeDelta)
               (mkVec3 (X (pos p) + X (vel p) * safeDelta)
                       (Y (pos p) + Y (vel p) * safeDelta)
                       (Z_ (pos p) + Z_ (vel p) * safeDelta))
               (mkVec3 (X (vel p)) (Y (vel p) - safeDelta * 9.8) (Z_ (vel p)))
               (rot p) (rotVel p) (pcolor p)
  else p.

(** The frame callback: every particle is stepped over
    [min(delta, 0.1)]; the instance matrices are rendering only. *)
Definition useFrame (delta : Q) (ps : list Particle) : list Particle :=
  let safeDelta := Qmin delta 0.1 in
  map (stepParticle safeDelta) ps.

End ParticleSystem.

(* ================================================================== *)
(** ** The heads-up display: where a restart can be asked for *)

Module HUD.


(** The row of hearts of the playing screen, [true] for a filled heart:
    [[...Array(maxLives)].map((_, i) => i < lives)].  [maxLives] is a
    count, so it is not negative. *)
Definition hearts (maxLives lives : Z) : list bool :=
  map (fun i => (Z.of_nat i <? lives)%Z) (seq 0 (Z.to_nat maxLives)).

End HUD.

(* ================================================================== *)
(** ** Sample data for the worked examples

    The values of the imported constants are not fixed by the two
    components; the ones below are only used to run the definitions. *)

Module Sample.

Definition cfg : Config :=
  mkConfig 2.2 120 20
           ["T"; "U"; "R"; "K"; "E"; "Y"]%string
           ["#a"; "#b"; "#c"; "#d"; "#e"; "#f"]%string.

(** Every call of [Math.random()] returns one half. *)
Definition rnd (n : nat) : Q := 0.5.

Definition store0 : Store.t :=
  Store.mk PLAYING 0%Z 3%Z 3%Z 1%Z [] 0%Z 22.5 3%Z false false false.

(** The same store with every index of the word collected. *)
Definition storeFull : Store.t :=
  Store.mk PLAYING 0%Z 3%Z 3%Z 1%Z [0; 1; 2; 3; 4; 5]%nat 0%Z 22.5 3%Z
           false false false.

(** A store in which the double jump is owned. *)
Definition storeWings : Store.t :=
  Store.mk PLAYING 0%Z 3%Z 3%Z 1%Z [] 0%Z 22.5 3%Z true false false.

(** Two jumps in a row and a frame of 20 ms. *)
Definition doubleJump : list Player.Transition :=
  [Player.TCommand Player.Jump; Player.TCommand Player.Jump;
   Player.TFrame 2.2 0%Z 0.02].

(** A scarecrow that has thrown its pitchfork already. *)
Definition firedScarecrowAt (z : Q) : GameObject :=
  mkObj 11 ALIEN (mkVec3 0 0 z) true (Some "#8b4513"%string)
        None None None (Some true).



(** A player that has just left the ground. *)
Definition jumped : Player.Physics := Player.mkPhysics 0 true 16 1%Z 0.

Definition obstacleAt (z : Q) : GameObject :=
  mkObj 7 OBSTACLE (mkVec3 0 0.7 z) true (Some "#deb887"%string)
        None None None None.

Definition portalAt (z : Q) : GameObject :=
  mkObj 9 SHOP_PORTAL (mkVec3 0 0 z) true None None None None None.

Definition origin : Vec3 := mkVec3 0 0 0.

Definition frame0 : LevelManager.FrameIn :=
  LevelManager.mkFrameIn 0.02 origin 5000%Z.

(** Three particles: one used up, one in flight, one never used. *)
Definition particles : list ParticleSystem.Particle :=
  [ParticleSystem.mkParticle (-0.02) origin origin origin origin "#deb887";
   ParticleSystem.mkParticle 0.8 origin (mkVec3 1 2 0) origin origin "#ff9900";
   ParticleSystem.mkParticle 0 origin origin origin origin ""]%string.

Definition simWith (st : Store.t) (objs : list GameObject) (d next : Q)
  : LevelManager.Sim :=
  LevelManager.mkSim
    (LevelManager.mkRefs objs (Store.status st) (Store.level st) d next)
    Player.initial (mkWorld st []) (LevelManager.mkGen 0 100).

End Sample.

(* ================================================================== *)
(** * Properties *)

(** Rational arithmetic stays folded under [simpl]. *)
#[local] Arguments Qplus : simpl never.
#[local] Arguments Qminus : simpl never.
#[local] Arguments Qmult : simpl never.
#[local] Arguments Qopp : simpl never.
#[local] Arguments Qabs : simpl never.
#[local] Arguments Qmin : simpl never.
#[local] Arguments Qpower : simpl never.
#[local] Arguments Qfloor : simpl never.
#[local] Arguments Qle_bool : simpl never.
#[local] Arguments inject_Z : simpl never.

(** ** Comparisons *)

Lemma ltb_lt (a b : Q) : Num.ltb a b = true <-> a < b.
Proof.
  unfold Num.ltb. rewrite negb_true_iff, <- not_true_iff_false, Qle_bool_iff.
  split; [apply Qnot_le_lt | apply Qlt_not_le].
Qed.

Lemma ltb_ge (a b : Q) : Num.ltb a b = false <-> b <= a.
Proof.
  unfold Num.ltb. rewrite negb_false_iff. apply Qle_bool_iff.
Qed.

Lemma leb_le (a b : Q) : Num.leb a b = true <-> a <= b.
Proof. apply Qle_bool_iff. Qed.

Lemma leb_gt (a b : Q) : Num.leb a b = false <-> b < a.
Proof.
  unfold Num.leb. rewrite <- not_true_iff_false, Qle_bool_iff.
  split; [apply Qnot_le_lt | apply Qlt_not_le].
Qed.

Lemma gtb_gt (a b : Q) : Num.gtb a b = true <-> b < a.
Proof. apply ltb_lt. Qed.


Lemma ObjectType_eqb_eq (a b : ObjectType) :
  ObjectType_eqb a b = true <-> a = b.
Proof. destruct a, b; simpl; split; congruence. Qed.

Lemma GameStatus_eqb_eq (a b : GameStatus) :
  GameStatus_eqb a b = true <-> a = b.
Proof. destruct a, b; simpl; split; congruence. Qed.

(** ** The jump state machine *)

Section PlayerJump.

Import Player.

Lemma Settled_initial : Settled (phys initial).
Proof. split; simpl; intros; [auto | discriminate]. Qed.

Lemma Settled_triggerJump dj s : Settled s -> Settled (triggerJump dj s).
Proof.
  intros [Hg Ha]. unfold triggerJump.
  destruct (isJumping s) eqn:J; simpl.
  - specialize (Ha eq_refl).
    destruct (jumpsPerformed s <? _)%Z; split; simpl; intros; try congruence;
      try lia; auto.
  - split; simpl; intros; [discriminate | lia].
Qed.

Lemma Settled_stepPhysics d s : Settled s -> Settled (stepPhysics d s).
Proof.
  intros H. unfold stepPhysics.
  destruct (isJumping s) eqn:J; [| exact H].
  destruct H as [_ Ha]. specialize (Ha J).
  destruct (Num.leb _ 0); simpl.
  - split; simpl; intros; [auto | discriminate].
  - destruct (jumpsPerformed s =? 2)%Z; rewrite ?J; split; simpl; intros;
      try congruence; lia.
Qed.

Lemma Settled_transition t pw :
  Settled (phys (fst pw)) -> Settled (phys (fst (transition t pw))).
Proof.
  destruct pw as [p w]. simpl. intros H. destruct t; simpl.
  - destruct status; simpl; auto. split; simpl; intros; [auto | discriminate].
  - unfold onLaneCount. destruct (_ <? _)%Z; auto.
  - destruct (Store.status (store w)); simpl; auto.
    destruct c; simpl; auto. now apply Settled_triggerJump.
  - unfold useFrame. destruct (Store.status (store w)); simpl; auto;
      unfold stepInvincible; simpl;
      repeat match goal with |- context [if ?b then _ else _] => destruct b end;
      simpl; now apply Settled_stepPhysics.
  - destruct (isInvincible p || _)%bool; simpl; auto.
Qed.

Lemma Settled_run ts pw :
  Settled (phys (fst pw)) -> Settled (phys (fst (run ts pw))).
Proof.
  revert pw. induction ts as [| t ts IH]; intros pw H; simpl; auto.
  apply IH. now apply Settled_transition.
Qed.

(** C3.  A Jump on the ground sets the jump count to 1 and the vertical
    velocity to the launch speed; a Jump in the air below the allowed
    maximum (1, or 2 with the double jump) adds one to the jump count and
    applies the launch speed again; a Jump in the air at the allowed
    maximum leaves height, velocity, jump count and spin as they are.
    On the ground the jump count is 0 in every state the component can be
    in. *)
Theorem triggerJump_cases (hasDoubleJump : bool) (s : Physics) :
  (isJumping s = false ->
     jumpsPerformed (triggerJump hasDoubleJump s) = 1%Z
     /\ velocityY (triggerJump hasDoubleJump s) = JUMP_FORCE
     /\ isJumping (triggerJump hasDoubleJump s) = true
     /\ posY (triggerJump hasDoubleJump s) = posY s)
  /\ (isJumping s = true -> (jumpsPerformed s < maxJumpsOf hasDoubleJump)%Z ->
     jumpsPerformed (triggerJump hasDoubleJump s) = (jumpsPerformed s + 1)%Z
     /\ velocityY (triggerJump hasDoubleJump s) = JUMP_FORCE
     /\ isJumping (triggerJump hasDoubleJump s) = true
     /\ posY (triggerJump hasDoubleJump s) = posY s)
  /\ (isJumping s = true -> (maxJumpsOf hasDoubleJump <= jumpsPerformed s)%Z ->
     triggerJump hasDoubleJump s = s)
  /\ (forall ts w, isJumping (phys (fst (run ts (initial, w)))) = false ->
     jumpsPerformed (phys (fst (run ts (initial, w)))) = 0%Z).
Proof.
  unfold triggerJump. split; [| split; [| split]].
  - intros J. rewrite J. simpl. auto.
  - intros J Hlt. rewrite J. simpl.
    apply Z.ltb_lt in Hlt. rewrite Hlt. simpl. auto.
  - intros J Hge. rewrite J. simpl.
    apply Z.ltb_ge in Hge. now rewrite Hge.
  - intros ts w J.
    now apply (Settled_run ts (initial, w) Settled_initial).
Qed.

Lemma triggerJump_cases_witness :
  Player.jumpsPerformed (Player.triggerJump true Sample.jumped) = 2%Z
  /\ Player.triggerJump false Sample.jumped = Sample.jumped.
Proof.
  destruct (triggerJump_cases true Sample.jumped) as (_ & H2 & _).
  destruct (triggerJump_cases false Sample.jumped) as (_ & _ & H3 & _).
  split.
  - apply H2; [reflexivity | unfold maxJumpsOf; simpl; lia].
  - apply H3; [reflexivity | unfold maxJumpsOf; simpl; lia].
Defined.

End PlayerJump.

(** ** Vertical physics *)

Section PlayerPhysics.

Import Player.

(** The height the airborne step computes first: the old height plus the
    old velocity times the elapsed time. *)
Lemma stepPhysics_airborne d s :
  isJumping s = true ->
  posY s + velocityY s * d > 0 ->
  posY (stepPhysics d s) = posY s + velocityY s * d
  /\ velocityY (stepPhysics d s) = velocityY s - GRAVITY * d
  /\ isJumping (stepPhysics d s) = true
  /\ jumpsPerformed (stepPhysics d s) = jumpsPerformed s.
Proof.
  intros J Hy. unfold stepPhysics. rewrite J.
  apply leb_gt in Hy. rewrite Hy. simpl.
  destruct (jumpsPerformed s =? 2)%Z; simpl; auto.
Qed.

Lemma stepPhysics_landing d s :
  isJumping s = true ->
  posY s + velocityY s * d <= 0 ->
  posY (stepPhysics d s) = 0
  /\ velocityY (stepPhysics d s) = 0
  /\ jumpsPerformed (stepPhysics d s) = 0%Z
  /\ isJumping (stepPhysics d s) = false.
Proof.
  intros J Hy. unfold stepPhysics. rewrite J.
  apply leb_le in Hy. rewrite Hy. simpl. auto.
Qed.

Lemma stepPhysics_grounded d s :
  isJumping s = false -> stepPhysics d s = s.
Proof. intros J. unfold stepPhysics. now rewrite J. Qed.

(** C4, as the code has it.  An airborne step first adds the old velocity
    times [dt] to the height and then subtracts [GRAVITY * dt] from the
    velocity.  The step grounds the player exactly when that new height
    is not above 0: height, velocity and jump count become 0.  A grounded
    player is left alone by the step, and in every state the component
    reaches the vertical velocity is zero on the ground. *)
Theorem stepPhysics_height_then_velocity (dt : Q) (s : Physics) :
  (isJumping s = true -> posY s + velocityY s * dt > 0 ->
     posY (stepPhysics dt s) = posY s + velocityY s * dt
     /\ velocityY (stepPhysics dt s) = velocityY s - GRAVITY * dt
     /\ isJumping (stepPhysics dt s) = true
     /\ jumpsPerformed (stepPhysics dt s) = jumpsPerformed s)
  /\ (isJumping s = true -> posY s + velocityY s * dt <= 0 ->
     posY (stepPhysics dt s) = 0
     /\ velocityY (stepPhysics dt s) = 0
     /\ jumpsPerformed (stepPhysics dt s) = 0%Z
     /\ isJumping (stepPhysics dt s) = false)
  /\ (isJumping s = false -> stepPhysics dt s = s)
  /\ (forall ts w, isJumping (phys (fst (run ts (initial, w)))) = false ->
     velocityY (phys (fst (run ts (initial, w)))) = 0).
Proof.
  split; [| split; [| split]].
  - apply stepPhysics_airborne.
  - apply stepPhysics_landing.
  - apply stepPhysics_grounded.
  - intros ts w J.
    now apply (Settled_run ts (initial, w) Settled_initial).
Qed.

Lemma stepPhysics_height_then_velocity_witness :
  Player.posY (Player.stepPhysics 0.1 Sample.jumped) = 0 + 16 * 0.1
  /\ Player.velocityY (Player.stepPhysics 0.1 Sample.jumped)
     = 16 - Player.GRAVITY * 0.1.
Proof.
  destruct (stepPhysics_height_then_velocity 0.1 Sample.jumped) as (H & _).
  destruct H as (Hy & Hv & _); [reflexivity | simpl; lra |].
  split; [exact Hy | exact Hv].
Defined.

(** C4, as the specification orders the two updates, fails: from a fresh
    jump (height 0, velocity 16) and [dt = 0.1] the code reaches height
    1.6, the velocity-first order would reach 1.1. *)
Lemma stepPhysics_order_counterexample :
  Player.posY (Player.stepPhysics 0.1 Sample.jumped) == 1.6
  /\ Player.posY (Player.specIntegrate 0.1 Sample.jumped) == 1.1
  /\ ~ Player.posY (Player.stepPhysics 0.1 Sample.jumped)
       == Player.posY (Player.specIntegrate 0.1 Sample.jumped).
Proof.
  split; [reflexivity | split; [reflexivity |]].
  intros H. vm_compute in H. discriminate H.
Qed.

(** ** The elapsed time of a frame *)

Lemma safeDelta_le (d : Q) : LevelManager.safeDeltaOf d <= 0.05.
Proof. apply Q.le_min_r. Qed.

Lemma safeDelta_nonneg (d : Q) : 0 <= d -> 0 <= LevelManager.safeDeltaOf d.
Proof.
  intros H. unfold LevelManager.safeDeltaOf. apply Q.min_glb; [exact H | lra].
Qed.

(** C9.  The level manager integrates over [min(delta, 0.05)], which is
    at most 50 ms.  The player's frame integrates the jump over the raw
    [delta]: after a hitch of half a second an airborne player with
    velocity 16 is moved to height 8 and velocity -9, while no elapsed
    time clamped to at most 100 ms moves it above 1.6. *)
Theorem player_physics_delta_unclamped :
  (forall d, LevelManager.safeDeltaOf d <= 0.05)
  /\ (let p := Player.useFrame 2.2 Sample.store0 0%Z 0.5
                 (Player.with_phys Sample.jumped Player.initial) in
      posY (phys p) == 8 /\ velocityY (phys p) == -9)
  /\ (forall d, posY (stepPhysics (Qmin d 0.1) Sample.jumped) <= 1.6).
Proof.
  split; [exact safeDelta_le | split].
  - split; reflexivity.
  - intros d. pose proof (Q.le_min_r d 0.1) as Hd.
    unfold stepPhysics. simpl.
    destruct (Num.leb (0 + 16 * Qmin d 0.1) 0) eqn:E; simpl; lra.
Qed.

End PlayerPhysics.

(** ** Collisions *)

Section Collisions.

Import LevelManager.

Variable cfg : Config.

Lemma countEffect_app f l e :
  countEffect f (l ++ [e]) = (countEffect f l + (if f e then 1 else 0))%nat.
Proof.
  unfold countEffect. rewrite filter_app, length_app. simpl.
  destruct (f e); reflexivity.
Qed.

Lemma verticalOverlap_iff pp obj :
  isDamageSource (type obj) = true ->
  verticalOverlap pp obj = true <-> verticalHit pp obj.
Proof.
  unfold verticalOverlap, verticalHit.
  destruct (type obj); simpl; try discriminate; intros _;
    rewrite andb_true_iff, ltb_lt, gtb_gt; tauto.
Qed.

(** The collision block deactivates an active object that is not the
    portal exactly when the three tests pass. *)
Lemma collide_hit_iff imm now pp prevZ obj p w :
  active obj = true ->
  type obj <> SHOP_PORTAL ->
  active (cobj (collide cfg imm now pp prevZ obj p w)) = false
  <-> HitCondition pp prevZ obj.
Proof.
  intros Ha Ht. unfold collide, HitCondition, straddles, lateralHit.
  rewrite Ha.
  destruct (ObjectType_eqb (type obj) SHOP_PORTAL) eqn:Ep.
  { apply ObjectType_eqb_eq in Ep. contradiction. }
  destruct (Num.ltb prevZ _) eqn:E1; simpl.
  2:{ apply ltb_ge in E1. split; [congruence |]. intros [[H _] _]. lra. }
  apply ltb_lt in E1.
  destruct (Num.gtb (Z_ (position obj)) _) eqn:E2; simpl.
  2:{ apply ltb_ge in E2. split; [congruence |]. intros [[_ H] _]. lra. }
  apply gtb_gt in E2.
  match goal with
  | |- context [Num.ltb (Qabs ?t) 0.9] =>
      destruct (Num.ltb (Qabs t) 0.9) eqn:E3
  end.
  2:{ apply ltb_ge in E3. simpl. split; [congruence |].
      intros (_ & H & _). apply Qle_not_lt in E3. contradiction. }
  apply ltb_lt in E3.
  destruct (isDamageSource (type obj)) eqn:Ed.
  - pose proof (verticalOverlap_iff pp obj Ed) as Hv.
    destruct (verticalOverlap pp obj) eqn:Ev.
    + destruct (Player.isInvincible p || imm)%bool; simpl;
        (split; [intros _ | reflexivity]);
        repeat split; try lra; try assumption; now apply Hv.
    + simpl. split; [congruence |]. intros (_ & _ & H).
      apply Hv in H. discriminate.
  - assert (Hv : verticalHit pp obj
                 <-> Qabs (Y (position obj) - Y pp) < 2.5).
    { unfold verticalHit. destruct (type obj); simpl in *;
        try discriminate; try tauto; congruence. }
    destruct (Num.ltb (Qabs (Y (position obj) - Y pp)) 2.5) eqn:E4; simpl.
    + apply ltb_lt in E4. split; [intros _ | reflexivity].
      repeat split; try lra; try assumption. now apply Hv.
    + apply ltb_ge in E4. split; [congruence |]. intros (_ & _ & H).
      apply Hv in H. apply Qle_not_lt in E4. contradiction.
Qed.

Lemma HitCondition_same pp prevZ o o' :
  type o' = type o -> position o' = position o ->
  HitCondition pp prevZ o' <-> HitCondition pp prevZ o.
Proof.
  intros Ht Hp.
  unfold HitCondition, straddles, lateralHit, verticalHit.
  now rewrite Ht, Hp.
Qed.

(** C5.  In the pass over the objects, an active object that is not the
    portal is deactivated (a hit is registered) if and only if its forward
    interval from the previous [z] to the new [z] straddles the player
    within 2.0, its lateral offset is within 0.9 of the player's, and the
    vertical test of its kind passes: the band [0, 1.4] for the hay bale,
    [0.5, 1.5] for the pitchfork, a band of half a unit around the object
    for the scarecrow (each against the player's band of height 1.6), and
    2.5 around the object's height for pies and letters. *)
Theorem hit_iff_conditions (imm : bool) (speed safeDelta : Q) (f : FrameIn)
  (acc : Loop) (obj0 : GameObject)
  (Hactive : active obj0 = true) (Hkind : type obj0 <> SHOP_PORTAL) :
  exists obj',
    moved (stepObject cfg imm speed safeDelta f acc obj0) = moved acc ++ [obj']
    /\ id obj' = id obj0
    /\ (active obj' = false
        <-> HitCondition (playerPos f) (Z_ (position obj0))
              (moveZ (moveAmountOf speed safeDelta (type obj0)) obj0)).
Proof.
  unfold stepObject.
  set (obj1 := moveZ (moveAmountOf speed safeDelta (type obj0)) obj0).
  set (fires := (ObjectType_eqb (type obj1) ALIEN && active obj1
                 && notFired obj1 && Num.gtb (Z_ (position obj1)) (-90))%bool).
  set (obj2 := if fires then setFired obj1 else obj1).
  assert (H2 : type obj2 = type obj0 /\ position obj2 = position obj1
               /\ active obj2 = true /\ id obj2 = id obj0).
  { subst obj2. destruct fires; simpl; auto. }
  destruct H2 as (Ht & Hp & Ha & Hi).
  cbv zeta. cbn [moved].
  eexists. split; [reflexivity |]. split.
  - unfold collide. rewrite Ha.
    repeat match goal with
           | |- context [if ?b then _ else _] => destruct b
           | |- context [let '(_, _) := ?x in _] => destruct x
           end; simpl; exact Hi.
  - rewrite collide_hit_iff by (rewrite ?Ht; assumption).
    apply HitCondition_same; [exact Ht | exact Hp].
Qed.

End Collisions.

Lemma hit_iff_conditions_witness :
  exists obj',
    LevelManager.moved
      (LevelManager.stepObject Sample.cfg false 22.5 0.02 Sample.frame0
         (LevelManager.mkLoop false [] [] [] Player.initial
            (mkWorld Sample.store0 []) (LevelManager.mkGen 0 0))
         (Sample.obstacleAt (-2)))
    = [] ++ [obj']
    /\ id obj' = 7%nat
    /\ (active obj' = false
        <-> LevelManager.HitCondition Sample.origin (-2)
              (LevelManager.moveZ (LevelManager.moveAmountOf 22.5 0.02 OBSTACLE)
                                  (Sample.obstacleAt (-2)))).
Proof.
  apply (hit_iff_conditions Sample.cfg false 22.5 0.02 Sample.frame0
           (LevelManager.mkLoop false [] [] [] Player.initial
              (mkWorld Sample.store0 []) (LevelManager.mkGen 0 0))
           (Sample.obstacleAt (-2))).
  - reflexivity.
  - simpl. discriminate.
Defined.

(** ** Damage and the invulnerability window *)

Section Damage.

Import LevelManager.

Variable cfg : Config.

Lemma takeDamage_lives st :
  Store.lives (Store.takeDamage st) = (Store.lives st - 1)%Z.
Proof.
  unfold Store.takeDamage. simpl.
  destruct (Store.lives st - 1 <=? 0)%Z; reflexivity.
Qed.

Lemma HitCondition_tests pp prevZ obj :
  isDamageSource (type obj) = true ->
  HitCondition pp prevZ obj ->
  Num.ltb prevZ (Z_ pp + 2.0) = true
  /\ Num.gtb (Z_ (position obj)) (Z_ pp - 2.0) = true
  /\ Num.ltb (Qabs (X (position obj) - X pp)) 0.9 = true
  /\ verticalOverlap pp obj = true
  /\ ObjectType_eqb (type obj) SHOP_PORTAL = false.
Proof.
  intros Hs ((H1 & H2) & H3 & H4).
  repeat split.
  - apply ltb_lt. lra.
  - apply gtb_gt. lra.
  - apply ltb_lt. exact H3.
  - now apply verticalOverlap_iff.
  - destruct (type obj); simpl in *; congruence.
Qed.

(** The damage window as the player's frame keeps it: the flag survives a
    frame only within 1500 ms of the last damage. *)
Lemma stepInvincible_window imm now q :
  Player.isInvincible (Player.stepInvincible imm now q) = true ->
  Player.isInvincible q = true /\ (now - Player.lastDamageTime q <= 1500)%Z.
Proof.
  unfold Player.stepInvincible.
  destruct (Player.isInvincible q) eqn:Hi; cbn [orb].
  - destruct (1500 <? now - Player.lastDamageTime q)%Z eqn:Ht; simpl.
    + discriminate.
    + intros _. apply Z.ltb_ge in Ht. auto.
  - destruct imm; rewrite Hi; discriminate.
Qed.

(** C1.  When the player collides with a hay bale, a scarecrow or a
    pitchfork, the object is deactivated in every case.  While the damage
    window is open ([isInvincible]) or the immortality skill is active,
    the store is left as it is (lives unchanged, [takeDamage] not called)
    and the player's refs are untouched; otherwise [takeDamage] is called
    exactly once, which costs one life, and the damage window opens at
    the current time.  The window is the [isInvincible] flag, which the
    player's frame keeps up only within 1500 ms of the last damage. *)
Theorem damage_skipped_while_invulnerable
  (imm : bool) (now : Z) (pp : Vec3) (prevZ : Q) (obj : GameObject)
  (p : Player.Refs) (w : World)
  (Hactive : active obj = true)
  (Hsource : isDamageSource (type obj) = true)
  (Hhit : HitCondition pp prevZ obj) :
  let c := collide cfg imm now pp prevZ obj p w in
  active (cobj c) = false
  /\ ((Player.isInvincible p || imm)%bool = true ->
      store (cworld c) = store w
      /\ Store.lives (store (cworld c)) = Store.lives (store w)
      /\ countEffect isCallTakeDamage (log (cworld c))
         = countEffect isCallTakeDamage (log w)
      /\ cplayer c = p)
  /\ ((Player.isInvincible p || imm)%bool = false ->
      store (cworld c) = Store.takeDamage (store w)
      /\ Store.lives (store (cworld c)) = (Store.lives (store w) - 1)%Z
      /\ countEffect isCallTakeDamage (log (cworld c))
         = S (countEffect isCallTakeDamage (log w))
      /\ Player.isInvincible (cplayer c) = true
      /\ Player.lastDamageTime (cplayer c) = now)
  /\ (forall imm' now' q,
      Player.isInvincible (Player.stepInvincible imm' now' q) = true ->
      Player.isInvincible q = true
      /\ (now' - Player.lastDamageTime q <= 1500)%Z).
Proof.
  destruct (HitCondition_tests pp prevZ obj Hsource Hhit)
    as (T1 & T2 & T3 & T4 & T5).
  unfold collide. rewrite Hactive, T5, T1, T2. cbn [andb].
  cbv zeta. rewrite T3, Hsource, T4.
  unfold Player.checkHit.
  destruct (Player.isInvincible p || imm)%bool; unfold emit;
    cbn [cobj cworld cplayer store log active deactivate
         Player.isInvincible Player.lastDamageTime].
  - split; [reflexivity |].
    split; [intros _ | split; [discriminate | exact stepInvincible_window]].
    rewrite !countEffect_app. cbn [isCallTakeDamage].
    repeat split; lia.
  - split; [reflexivity |].
    split; [discriminate | split; [intros _ | exact stepInvincible_window]].
    rewrite !countEffect_app. cbn [isCallTakeDamage].
    rewrite takeDamage_lives. repeat split; lia.
Qed.

(** The portal block: an active portal within 2 of the player along the
    track opens the shop, whatever the lateral and vertical offsets. *)
Lemma collide_portal imm now pp prevZ obj p w :
  active obj = true ->
  type obj = SHOP_PORTAL ->
  Qabs (Z_ (position obj) - Z_ pp) < 2 ->
  collide cfg imm now pp prevZ obj p w
  = mkCollision (deactivate obj) false true p
      (mkWorld (Store.openShop (store w)) (log w ++ [CallOpenShop])).
Proof.
  intros Ha Ht Hz. unfold collide. rewrite Ha, Ht. cbn.
  apply ltb_lt in Hz. now rewrite Hz.
Qed.

(** The collision block does nothing to an inactive object. *)
Lemma collide_inactive imm now pp prevZ obj p w :
  active obj = false ->
  collide cfg imm now pp prevZ obj p w = mkCollision obj true false p w.
Proof. intros Ha. unfold collide. now rewrite Ha. Qed.

End Damage.

Lemma damage_skipped_while_invulnerable_witness :
  let c := LevelManager.collide Sample.cfg true 0%Z Sample.origin (-2)
             (Sample.obstacleAt (-1)) Player.initial
             (mkWorld Sample.store0 []) in
  active (LevelManager.cobj c) = false
  /\ Store.lives (store (LevelManager.cworld c)) = 3%Z.
Proof.
  destruct (damage_skipped_while_invulnerable Sample.cfg true 0%Z
              Sample.origin (-2) (Sample.obstacleAt (-1)) Player.initial
              (mkWorld Sample.store0 []))
    as (Hd & Hskip & _ & _).
  - reflexivity.
  - reflexivity.
  - unfold LevelManager.HitCondition, LevelManager.straddles,
      LevelManager.lateralHit, LevelManager.verticalHit. simpl.
    repeat split; try lra; apply Qabs_Qlt_condition; simpl; lra.
  - split; [exact Hd |]. destruct Hskip as (_ & Hl & _); [reflexivity |].
    exact Hl.
Defined.

(** ** One iteration of the object loop *)

Section ObjectLoop.

Import LevelManager.

Variable cfg : Config.

(** The three ways the collision block can end: nothing happens; the
    portal opens the shop; an object that is not the portal is hit. *)
Lemma collide_cases imm now pp prevZ obj p w :
  let c := collide cfg imm now pp prevZ obj p w in
  (c = mkCollision obj true false p w
   /\ (isActivePortal obj = true ->
       Num.ltb (Qabs (Z_ (position obj) - Z_ pp)) 2 = false))
  \/ (isActivePortal obj = true
      /\ Num.ltb (Qabs (Z_ (position obj) - Z_ pp)) 2 = true
      /\ c = mkCollision (deactivate obj) false true p
               (mkWorld (Store.openShop (store w)) (log w ++ [CallOpenShop])))
  \/ (isActivePortal obj = false
      /\ cobj c = deactivate obj /\ keep c = true /\ changed c = true
      /\ countOpenShop (cworld c) = countOpenShop w).
Proof.
  unfold collide, isActivePortal, countOpenShop.
  destruct (active obj) eqn:Ha.
  2:{ left. rewrite andb_false_r. split; [reflexivity | discriminate]. }
  rewrite andb_true_r.
  destruct (ObjectType_eqb (type obj) SHOP_PORTAL) eqn:Ep.
  { cbv zeta.
    destruct (Num.ltb (Qabs (Z_ (position obj) - Z_ pp)) 2) eqn:Ez.
    - right. left. auto.
    - left. auto. }
  cbv zeta.
  destruct (Num.ltb prevZ _ && _)%bool.
  2:{ left. split; [reflexivity | discriminate]. }
  destruct (Num.ltb (Qabs (X (position obj) - X pp)) 0.9).
  2:{ left. split; [reflexivity | discriminate]. }
  destruct (isDamageSource (type obj)).
  - destruct (verticalOverlap pp obj).
    2:{ left. split; [reflexivity | discriminate]. }
    right. right. unfold Player.checkHit, emit.
    destruct (Player.isInvincible p || imm)%bool;
      cbn [cobj keep changed cworld log store];
      rewrite !countEffect_app; cbn [isCallOpenShop];
      repeat split; lia.
  - destruct (Num.ltb (Qabs (Y (position obj) - Y pp)) 2.5).
    2:{ left. split; [reflexivity | discriminate]. }
    right. right. unfold emit.
    cbn [cobj keep changed cworld log store].
    rewrite countEffect_app. cbn [isCallOpenShop].
    split; [reflexivity |]. repeat split.
    destruct (type obj); destruct (targetIndex obj);
      cbn [log]; rewrite ?countEffect_app; cbn [isCallOpenShop]; lia.
Qed.

(** What one iteration does to the loop variables. *)
Lemma stepObject_shape imm speed sd f acc o :
  exists o3 fired,
    Advanced speed sd o o3
    /\ (isActivePortal o3 = true ->
        isActivePortal o = true /\ portalReached speed sd f o = false)
    /\ moved (stepObject cfg imm speed sd f acc o) = moved acc ++ [o3]
    /\ (keptObjects (stepObject cfg imm speed sd f acc o) = keptObjects acc
        \/ keptObjects (stepObject cfg imm speed sd f acc o)
           = keptObjects acc ++ [o3])
    /\ newSpawns (stepObject cfg imm speed sd f acc o)
       = newSpawns acc ++ fired
    /\ Forall isMissile fired
    /\ countOpenShop (lworld (stepObject cfg imm speed sd f acc o))
       = (countOpenShop (lworld acc)
          + if portalReached speed sd f o then 1 else 0)%nat.
Proof.
  unfold stepObject.
  set (obj1 := moveZ (moveAmountOf speed sd (type o)) o).
  set (fires := (ObjectType_eqb (type obj1) ALIEN && active obj1
                 && notFired obj1 && Num.gtb (Z_ (position obj1)) (-90))%bool).
  set (obj2 := if fires then setFired obj1 else obj1).
  assert (H2 : type obj2 = type o /\ position obj2 = position obj1
               /\ active obj2 = active o /\ id obj2 = id o).
  { subst obj2. destruct fires; simpl; auto. }
  destruct H2 as (Ht & Hp & Ha & Hi).
  assert (Hap : isActivePortal obj2 = isActivePortal o).
  { unfold isActivePortal. now rewrite Ht, Ha. }
  assert (Hpr : portalReached speed sd f o
                = (isActivePortal obj2
                   && Num.ltb (Qabs (Z_ (position obj2) - Z_ (playerPos f))) 2)%bool).
  { rewrite Hap, Hp. reflexivity. }
  cbv zeta.
  cbn [moved keptObjects newSpawns lworld].
  pose proof (collide_cases imm (now f) (playerPos f) (Z_ (position o))
                obj2 (lplayer acc) (lworld acc)) as Hc.
  cbv zeta in Hc.
  set (c := collide cfg imm (now f) (playerPos f) (Z_ (position o)) obj2
                    (lplayer acc) (lworld acc)) in *.
  assert (Hadv2 : Advanced speed sd o obj2).
  { unfold Advanced. rewrite Hi, Ht, Hp. simpl. auto. }
  assert (Hadvd : Advanced speed sd o (deactivate obj2)).
  { unfold Advanced in *. simpl. exact Hadv2. }
  exists (cobj c), (if fires then [missileOf (fst (uuidv4 (lgen acc))) obj1] else []).
  assert (Hfired : Forall isMissile
            (if fires then [missileOf (fst (uuidv4 (lgen acc))) obj1] else [])).
  { destruct fires; repeat constructor. }
  assert (Hkept :
    (if (keep c && negb (Num.gtb (Z_ (position (cobj c))) (REMOVE_DISTANCE cfg)))%bool
     then keptObjects acc ++ [cobj c] else keptObjects acc) = keptObjects acc
    \/ (if (keep c && negb (Num.gtb (Z_ (position (cobj c))) (REMOVE_DISTANCE cfg)))%bool
        then keptObjects acc ++ [cobj c] else keptObjects acc)
       = keptObjects acc ++ [cobj c]).
  { destruct (keep c && _)%bool; auto. }
  destruct Hc as [(Hc & Hn) | [(Hp1 & Hp2 & Hc) | (Hp1 & Hc1 & _ & _ & Hc4)]].
  - rewrite Hc in *. cbn [cobj cworld] in *.
    repeat split; try apply Hadv2; auto.
    + now rewrite <- Hap.
    + rewrite Hpr. rewrite Hn by assumption. now rewrite andb_false_r.
    + rewrite Hpr. destruct (isActivePortal obj2); [| simpl; lia].
      rewrite Hn by reflexivity. simpl. lia.
  - rewrite Hc in *. cbn [cobj cworld] in *.
    repeat split; try apply Hadvd; auto.
    + unfold isActivePortal in H. simpl in H.
      rewrite andb_false_r in H. discriminate.
    + unfold isActivePortal in H. simpl in H.
      rewrite andb_false_r in H. discriminate.
    + rewrite Hpr, Hp1, Hp2. unfold countOpenShop. cbn [log].
      rewrite countEffect_app. reflexivity.
  - rewrite Hc1 in *.
    repeat split; try apply Hadvd; auto.
    + unfold isActivePortal in H. simpl in H.
      rewrite andb_false_r in H. discriminate.
    + unfold isActivePortal in H. simpl in H.
      rewrite andb_false_r in H. discriminate.
    + rewrite Hpr, Hp1, Hc4. simpl. lia.
Qed.

End ObjectLoop.

(** ** The object loop and the frame *)

Section FrameLemmas.

Import LevelManager.

Variable cfg : Config.
Variable rnd : nat -> Q.

Lemma fold_stepObject_shape imm speed sd f objs : forall acc,
  exists ms ks fs,
    moved (fold_left (stepObject cfg imm speed sd f) objs acc)
    = moved acc ++ ms
    /\ Forall2 (Stepped speed sd f) objs ms
    /\ keptObjects (fold_left (stepObject cfg imm speed sd f) objs acc)
       = keptObjects acc ++ ks
    /\ incl ks ms
    /\ newSpawns (fold_left (stepObject cfg imm speed sd f) objs acc)
       = newSpawns acc ++ fs
    /\ Forall isMissile fs
    /\ countOpenShop (lworld (fold_left (stepObject cfg imm speed sd f) objs acc))
       = (countOpenShop (lworld acc)
          + List.length (filter (portalReached speed sd f) objs))%nat.
Proof.
  induction objs as [| o objs IH]; intros acc.
  - exists [], [], []. simpl. rewrite !app_nil_r.
    repeat split; auto using incl_refl.
  - simpl fold_left.
    destruct (stepObject_shape cfg imm speed sd f acc o)
      as (o3 & fired & Hadv & Hport & Hm & Hk & Hn & Hf & Hc).
    destruct (IH (stepObject cfg imm speed sd f acc o))
      as (ms & ks & fs & Im & I2 & Ik & Iincl & In_ & If & Ic).
    rewrite Im, Ik, In_, Ic, Hm, Hn, Hc.
    destruct Hk as [Hk | Hk]; rewrite Hk.
    + exists (o3 :: ms), ks, (fired ++ fs).
      rewrite <- !app_assoc. simpl.
      split; [reflexivity |].
      split; [constructor; [exact (conj Hadv Hport) | exact I2] |].
      split; [reflexivity |].
      split; [now apply incl_tl |].
      split; [reflexivity |].
      split; [now apply Forall_app |].
      destruct (portalReached speed sd f o); simpl; lia.
    + exists (o3 :: ms), (o3 :: ks), (fired ++ fs).
      rewrite <- !app_assoc. simpl.
      split; [reflexivity |].
      split; [constructor; [exact (conj Hadv Hport) | exact I2] |].
      split; [reflexivity |].
      split; [apply incl_cons; [now left | now apply incl_tl] |].
      split; [reflexivity |].
      split; [now apply Forall_app |].
      destruct (portalReached speed sd f o); simpl; lia.
Qed.

(** The loop of a frame, from the empty accumulators. *)
Lemma loopOf_shape f s :
  let speed := Store.speed (store (world s)) in
  let sd := safeDeltaOf (delta f) in
  Forall2 (Stepped speed sd f) (objects (refs s)) (moved (loopOf cfg f s))
  /\ incl (keptObjects (loopOf cfg f s)) (moved (loopOf cfg f s))
  /\ Forall isMissile (newSpawns (loopOf cfg f s))
  /\ countOpenShop (lworld (loopOf cfg f s))
     = (countOpenShop (world s)
        + List.length (filter (portalReached speed sd f) (objects (refs s))))%nat.
Proof.
  intros speed sd. unfold loopOf, runLoop.
  destruct (fold_stepObject_shape
              (Store.isImmortalityActive (store (world s))) speed sd f
              (objects (refs s))
              (mkLoop false [] [] [] (player s) (world s) (gen s)))
    as (ms & ks & fs & Hm & H2 & Hk & Hi & Hn & Hf & Hc).
  fold speed sd. rewrite Hm, Hk, Hn, Hc. simpl. auto.
Qed.

(** A frame while PLAYING, piece by piece. *)
Lemma useFrame_playing f s :
  Store.status (store (world s)) = PLAYING ->
  let l := loopOf cfg f s in
  let sp := spawnOf cfg rnd f s in
  refs (useFrame cfg rnd f s)
  = mkRefs (if (hasChanges l || spawnedAny sp)%bool
            then keptAfterLoop l ++ pushed sp else moved l)
           (prevStatus (refs s)) (prevLevel (refs s))
           (distanceTraveled (refs s)
            + Store.speed (store (world s)) * safeDeltaOf (delta f))
           (nextLetter sp)
  /\ world (useFrame cfg rnd f s) = lworld l
  /\ player (useFrame cfg rnd f s) = lplayer l.
Proof.
  intros Hs. unfold useFrame, spawnOf. rewrite Hs. cbv zeta.
  destruct (spawn _ _ _ _ _ _ _) as [sp g']. simpl. auto.
Qed.

Lemma useFrame_idle f s :
  Store.status (store (world s)) <> PLAYING -> useFrame cfg rnd f s = s.
Proof.
  intros Hs. unfold useFrame.
  destruct (Store.status (store (world s))); congruence.
Qed.

(** Where the objects of the store after a frame come from. *)
Lemma useFrame_objects f s o' :
  Store.status (store (world s)) = PLAYING ->
  In o' (objects (refs (useFrame cfg rnd f s))) ->
  In o' (moved (loopOf cfg f s))
  \/ In o' (newSpawns (loopOf cfg f s))
  \/ In o' (pushed (spawnOf cfg rnd f s)).
Proof.
  intros Hs Hin.
  destruct (useFrame_playing f s Hs) as (Hr & _). cbv zeta in Hr.
  rewrite Hr in Hin. cbn [objects] in Hin.
  destruct (loopOf_shape f s) as (_ & Hincl & _).
  destruct (hasChanges _ || _)%bool; [| now left].
  unfold keptAfterLoop in Hin. rewrite !in_app_iff in Hin.
  destruct Hin as [[H | H] | H]; auto.
Qed.

Lemma moveAmount_nonneg speed sd t :
  0 <= speed -> 0 <= sd -> 0 <= moveAmountOf speed sd t.
Proof.
  intros Hs Hd. unfold moveAmountOf, MISSILE_SPEED.
  pose proof (Qmult_le_0_compat _ _ Hs Hd).
  destruct t; lra.
Qed.

(** C7.  In a frame while PLAYING every object of the store is moved on
    by exactly [speed * dt], and a pitchfork by [MISSILE_SPEED * dt]
    more, where [dt] is the frame's clamped elapsed time; with speed and
    elapsed time not negative, its forward distance does not decrease.
    The objects in the store after the frame are these moved objects or
    were created in this frame. *)
Theorem entities_advance (f : FrameIn) (s : Sim)
  (Hplaying : Store.status (store (world s)) = PLAYING)
  (Hforward : forward f s) :
  Forall2
    (fun o o' =>
       id o' = id o
       /\ Z_ (position o')
          = Z_ (position o)
            + moveAmountOf (Store.speed (store (world s)))
                           (safeDeltaOf (delta f)) (type o)
       /\ Z_ (position o) <= Z_ (position o'))
    (objects (refs s)) (moved (loopOf cfg f s))
  /\ (forall t, t <> MISSILE ->
      moveAmountOf (Store.speed (store (world s))) (safeDeltaOf (delta f)) t
      = Store.speed (store (world s)) * safeDeltaOf (delta f))
  /\ moveAmountOf (Store.speed (store (world s))) (safeDeltaOf (delta f)) MISSILE
     = Store.speed (store (world s)) * safeDeltaOf (delta f)
       + MISSILE_SPEED * safeDeltaOf (delta f)
  /\ (forall o', In o' (objects (refs (useFrame cfg rnd f s))) ->
      In o' (moved (loopOf cfg f s))
      \/ In o' (newSpawns (loopOf cfg f s))
      \/ In o' (pushed (spawnOf cfg rnd f s))).
Proof.
  destruct Hforward as [Hsp Hd].
  split; [| split; [| split]].
  - destruct (loopOf_shape f s) as (H2 & _). cbv zeta in H2.
    eapply Forall2_impl; [| exact H2].
    intros o o' ((Hi & _ & _ & _ & Hz) & _).
    split; [exact Hi | split; [exact Hz |]].
    rewrite Hz.
    pose proof (moveAmount_nonneg (Store.speed (store (world s)))
                  (safeDeltaOf (delta f)) (type o) Hsp
                  (safeDelta_nonneg _ Hd)).
    lra.
  - intros t Ht. destruct t; try reflexivity. congruence.
  - reflexivity.
  - intros o'. now apply useFrame_objects.
Qed.

End FrameLemmas.

Lemma entities_advance_witness :
  Forall2
    (fun o o' =>
       id o' = id o
       /\ Z_ (position o')
          = Z_ (position o)
            + LevelManager.moveAmountOf 22.5 (LevelManager.safeDeltaOf 0.02)
                                        (type o)
       /\ Z_ (position o) <= Z_ (position o'))
    [Sample.obstacleAt (-50)]
    (LevelManager.moved
       (LevelManager.loopOf Sample.cfg Sample.frame0
          (Sample.simWith Sample.store0 [Sample.obstacleAt (-50)] 0 150))).
Proof.
  refine (proj1 (entities_advance Sample.cfg Sample.rnd Sample.frame0
                   (Sample.simWith Sample.store0 [Sample.obstacleAt (-50)] 0 150)
                   eq_refl _)).
  split; simpl; lra.
Defined.

(** ** The portal *)

Section Portal.

Import LevelManager.

Variable cfg : Config.
Variable rnd : nat -> Q.

Lemma Forall2_In_r {A B} (R : A -> B -> Prop) xs ys y :
  Forall2 R xs ys -> In y ys -> exists x, In x xs /\ R x y.
Proof.
  induction 1 as [| x y' xs ys HR _ IH]; simpl; [tauto |].
  intros [-> | Hin].
  - exists x. auto.
  - destruct (IH Hin) as (x' & Hx & HRx). exists x'. auto.
Qed.

(** Spawning never creates the portal. *)
Lemma spawn_no_portal st d next kept g :
  Forall (fun o => isActivePortal o = false)
         (pushed (fst (spawn cfg rnd st d next kept g))).
Proof.
  unfold spawn, spawnLetter, spawnRandom, getRandomLane, random, uuidv4,
    bind, ret.
  repeat match goal with
         | |- context [if ?b then _ else _] => destruct b
         end; simpl; repeat constructor.
Qed.

Lemma isMissile_no_portal o : isMissile o -> isActivePortal o = false.
Proof. unfold isMissile, isActivePortal. now intros ->. Qed.

(** Every active portal in the store after a frame was an active portal
    before it that the player did not reach. *)
Lemma useFrame_portals f s o' :
  Store.status (store (world s)) = PLAYING ->
  In o' (objects (refs (useFrame cfg rnd f s))) ->
  isActivePortal o' = true ->
  exists o,
    In o (objects (refs s)) /\ id o' = id o
    /\ isActivePortal o = true
    /\ portalReached (Store.speed (store (world s))) (safeDeltaOf (delta f)) f o
       = false.
Proof.
  intros Hs Hin Hp.
  destruct (loopOf_shape cfg f s) as (H2 & _ & Hmis & _). cbv zeta in H2.
  destruct (useFrame_objects cfg rnd f s o' Hs Hin) as [H | [H | H]].
  - destruct (Forall2_In_r _ _ _ _ H2 H) as (o & Ho & (Hadv & Hport)).
    exists o. destruct (Hport Hp) as [Ha Hr].
    destruct Hadv as (Hi & _). auto.
  - rewrite Forall_forall in Hmis.
    rewrite (isMissile_no_portal o' (Hmis o' H)) in Hp. discriminate.
  - pose proof (spawn_no_portal (store (world s))
                  (distanceTraveled (refs s)
                   + Store.speed (store (world s)) * safeDeltaOf (delta f))
                  (nextLetterDistance (refs s))
                  (keptAfterLoop (loopOf cfg f s)) (lgen (loopOf cfg f s)))
      as Hsp.
    rewrite Forall_forall in Hsp. unfold spawnOf in H.
    rewrite (Hsp o' H) in Hp. discriminate.
Qed.

Lemma useFrame_count f s :
  Store.status (store (world s)) = PLAYING ->
  countOpenShop (world (useFrame cfg rnd f s))
  = (countOpenShop (world s)
     + List.length
         (filter (portalReached (Store.speed (store (world s)))
                                (safeDeltaOf (delta f)) f)
                 (objects (refs s))))%nat.
Proof.
  intros Hs. destruct (useFrame_playing cfg rnd f s Hs) as (_ & Hw & _).
  cbv zeta in Hw. rewrite Hw.
  now destruct (loopOf_shape cfg f s) as (_ & _ & _ & Hc).
Qed.

Lemma noActivePortal_filter speed sd f objs :
  Forall (fun o => isActivePortal o = false) objs ->
  filter (portalReached speed sd f) objs = [].
Proof.
  induction 1 as [| o objs Ho _ IH]; simpl; [reflexivity |].
  unfold portalReached. unfold isActivePortal in Ho. rewrite Ho. exact IH.
Qed.

Lemma noActivePortal_useFrame f s :
  noActivePortal s ->
  noActivePortal (useFrame cfg rnd f s)
  /\ countOpenShop (world (useFrame cfg rnd f s)) = countOpenShop (world s).
Proof.
  intros Hn.
  destruct (Store.status (store (world s))) eqn:Hs;
    try (rewrite useFrame_idle by congruence; auto).
  split.
  - unfold noActivePortal. apply Forall_forall. intros o' Hin.
    destruct (isActivePortal o') eqn:Hp; [| reflexivity].
    destruct (useFrame_portals f s o' Hs Hin Hp) as (o & Ho & _ & Ha & _).
    unfold noActivePortal in Hn. rewrite Forall_forall in Hn.
    rewrite (Hn o Ho) in Ha. discriminate.
  - rewrite useFrame_count by exact Hs.
    rewrite noActivePortal_filter by exact Hn. simpl. lia.
Qed.

(** A portal ahead of the player cannot slip past unreached as long as a
    frame moves it by less than 4, the width of the proximity window. *)
Lemma portal_not_skipped speed sd f o :
  isActivePortal o = true ->
  Z_ (position o) <= Z_ (playerPos f) - 2 ->
  0 <= moveAmountOf speed sd (type o) < 4 ->
  portalReached speed sd f o = true
  \/ Z_ (position o) + moveAmountOf speed sd (type o) <= Z_ (playerPos f) - 2.
Proof.
  intros Ha Hz [H0 H4]. unfold portalReached. unfold isActivePortal in Ha.
  rewrite Ha. cbn [andb].
  destruct (Num.ltb _ 2) eqn:E; [now left | right].
  apply ltb_ge in E.
  destruct (Qlt_le_dec (-(2)) (Z_ (position o) + moveAmountOf speed sd (type o)
                               - Z_ (playerPos f))) as [Hl | Hl]; [| lra].
  exfalso. apply (Qle_not_lt _ _ E). apply Qabs_Qlt_condition. split; lra.
Qed.

(** C6.  An active portal within 2 of the player along the track opens
    the shop, with no condition on the lateral or vertical offsets: the
    shop is opened once, the portal is deactivated and dropped from the
    store.  A frame opens the shop once for each portal reached in it,
    and a portal still active after the frame is one that was not
    reached.  Once no active portal is left, no later frame opens the
    shop again, whatever happens outside the component in between.  A
    portal ahead of the player is not skipped while a frame moves it by
    less than 4. *)
Theorem portal_opens_shop_once :
  (forall imm now pp prevZ obj p w,
      active obj = true -> type obj = SHOP_PORTAL ->
      Qabs (Z_ (position obj) - Z_ pp) < 2 ->
      collide cfg imm now pp prevZ obj p w
      = mkCollision (deactivate obj) false true p
          (mkWorld (Store.openShop (store w)) (log w ++ [CallOpenShop])))
  /\ (forall f s,
      Store.status (store (world s)) = PLAYING ->
      countOpenShop (world (useFrame cfg rnd f s))
      = (countOpenShop (world s)
         + List.length
             (filter (portalReached (Store.speed (store (world s)))
                                    (safeDeltaOf (delta f)) f)
                     (objects (refs s))))%nat
      /\ (forall o',
          In o' (objects (refs (useFrame cfg rnd f s))) ->
          isActivePortal o' = true ->
          exists o,
            In o (objects (refs s)) /\ id o' = id o
            /\ isActivePortal o = true
            /\ portalReached (Store.speed (store (world s)))
                             (safeDeltaOf (delta f)) f o = false))
  /\ (forall a s,
      noActivePortal a ->
      Run cfg rnd (fun _ _ => True) a s ->
      noActivePortal s /\ countOpenShop (world s) = countOpenShop (world a))
  /\ (forall speed sd f o,
      isActivePortal o = true ->
      Z_ (position o) <= Z_ (playerPos f) - 2 ->
      0 <= moveAmountOf speed sd (type o) < 4 ->
      portalReached speed sd f o = true
      \/ Z_ (position o) + moveAmountOf speed sd (type o)
         <= Z_ (playerPos f) - 2).
Proof.
  split; [| split; [| split]]; [| | | exact portal_not_skipped].
  - intros. now apply collide_portal.
  - intros f s Hs. split.
    + now apply useFrame_count.
    + intros o'. now apply useFrame_portals.
  - intros a s Ha Hrun.
    induction Hrun as [| s f _ IH _ | s p st g _ IH].
    + auto.
    + destruct IH as [In_ Ic].
      destruct (noActivePortal_useFrame f s In_) as [Hn Hc].
      split; [exact Hn | congruence].
    + exact IH.
Qed.

End Portal.

Lemma portal_opens_shop_once_witness :
  countOpenShop
    (LevelManager.world
       (LevelManager.useFrame Sample.cfg Sample.rnd Sample.frame0
          (Sample.simWith Sample.store0 [Sample.portalAt (-1)] 0 150)))
  = 1%nat.
Proof.
  destruct (portal_opens_shop_once Sample.cfg Sample.rnd) as (_ & Hb & _).
  destruct (Hb Sample.frame0
              (Sample.simWith Sample.store0 [Sample.portalAt (-1)] 0 150)
              eq_refl) as [Hc _].
  rewrite Hc. reflexivity.
Defined.

(** ** Letters *)

Section Letters.

Import LevelManager.

Variable cfg : Config.
Variable rnd : nat -> Q.

Lemma getLetterInterval_geometric (L : Z) :
  (1 <= L)%Z ->
  getLetterInterval L == BASE_LETTER_INTERVAL * 1.5 ^ (L - 1).
Proof.
  intros HL. unfold getLetterInterval.
  now rewrite Z.max_r by lia.
Qed.

(** Whenever the spawning block pushes a letter, it advances the
    threshold by the interval of the current level. *)
Lemma spawn_letter_advances st d next kept g o :
  In o (pushed (fst (spawn cfg rnd st d next kept g))) ->
  type o = LETTER ->
  nextLetter (fst (spawn cfg rnd st d next kept g))
  = next + getLetterInterval (Store.level st).
Proof.
  unfold spawn, spawnLetter, spawnRandom, getRandomLane, random, uuidv4,
    bind, ret, gemAt.
  repeat match goal with
         | |- context [if ?b then _ else _] => destruct b
         end; simpl; intros Hin Ht;
    repeat match goal with
           | H : _ \/ _ |- _ => destruct H as [H | H]
           | H : False |- _ => destruct H
           | H : _ = o |- _ => subst o; simpl in Ht
           end; try discriminate; reflexivity.
Qed.

(** When a letter is due and an index is left, the block pushes exactly
    one letter. *)
Lemma spawn_letter_due st d next kept g :
  spawnOpportunity cfg kept = true ->
  Num.geb d next = true ->
  availableIndices cfg (Store.collectedLetters st) <> [] ->
  exists o,
    pushed (fst (spawn cfg rnd st d next kept g)) = [o]
    /\ type o = LETTER
    /\ targetIndex o
       = pick (availableIndices cfg (Store.collectedLetters st))
              (rnd (S (cursor g))).
Proof.
  intros Ho Hd Ha. unfold spawn. rewrite Ho, Hd.
  unfold spawnLetter, getRandomLane, random, uuidv4, bind, ret.
  destruct (availableIndices cfg (Store.collectedLetters st)) eqn:E;
    [congruence |].
  simpl. eexists. split; [reflexivity |]. split; reflexivity.
Qed.

(** C2.  For a level [L >= 1] the letter interval is
    [BASE_LETTER_INTERVAL * 1.5 ^ (L - 1)], and a frame that spawns a
    letter sets the threshold to the old threshold plus the interval of
    the current level.  A letter is spawned whenever the frame has a
    spawn opportunity, the letter is due and an index of the word is
    still missing. *)
Theorem letter_interval_and_threshold :
  (forall L, (1 <= L)%Z ->
     getLetterInterval L == BASE_LETTER_INTERVAL * 1.5 ^ (L - 1))
  /\ (forall f s o,
      Store.status (store (world s)) = PLAYING ->
      In o (pushed (spawnOf cfg rnd f s)) -> type o = LETTER ->
      nextLetterDistance (refs (useFrame cfg rnd f s))
      = nextLetterDistance (refs s)
        + getLetterInterval (Store.level (store (world s))))
  /\ (forall f s,
      Store.status (store (world s)) = PLAYING ->
      spawnOpportunity cfg (keptAfterLoop (loopOf cfg f s)) = true ->
      isLetterDue f s = true ->
      ~ lettersComplete cfg s ->
      exists o, pushed (spawnOf cfg rnd f s) = [o] /\ type o = LETTER).
Proof.
  split; [exact getLetterInterval_geometric | split].
  - intros f s o Hs Hin Ht.
    destruct (useFrame_playing cfg rnd f s Hs) as (Hr & _). cbv zeta in Hr.
    rewrite Hr. cbn [nextLetterDistance].
    unfold spawnOf in *. now apply spawn_letter_advances with (o := o).
  - intros f s Hs Ho Hd Hc. unfold spawnOf.
    destruct (spawn_letter_due (store (world s))
                (distanceTraveled (refs s)
                 + Store.speed (store (world s)) * safeDeltaOf (delta f))
                (nextLetterDistance (refs s))
                (keptAfterLoop (loopOf cfg f s)) (lgen (loopOf cfg f s))
                Ho Hd Hc) as (o & H1 & H2 & _).
    exists o. auto.
Qed.

End Letters.

Lemma letter_interval_and_threshold_witness :
  LevelManager.getLetterInterval 3 == 337.5
  /\ LevelManager.nextLetterDistance
       (LevelManager.refs
          (LevelManager.useFrame Sample.cfg Sample.rnd Sample.frame0
             (Sample.simWith Sample.store0 [] 150 150)))
     = 150 + LevelManager.getLetterInterval 1.
Proof.
  destruct (letter_interval_and_threshold Sample.cfg Sample.rnd)
    as (H1 & H2 & H3).
  split.
  - rewrite (H1 3%Z) by lia. reflexivity.
  - destruct (H3 Sample.frame0 (Sample.simWith Sample.store0 [] 150 150))
      as (o & Hp & Ht).
    + reflexivity.
    + reflexivity.
    + reflexivity.
    + unfold LevelManager.lettersComplete. simpl. discriminate.
    + apply (H2 Sample.frame0 (Sample.simWith Sample.store0 [] 150 150) o).
      * reflexivity.
      * rewrite Hp. now left.
      * exact Ht.
Defined.

(** ** The fallback pie *)

Section Fallback.

Import LevelManager.

Variable cfg : Config.
Variable rnd : nat -> Q.







End Fallback.


(** ** Restart *)

Section RestartEffect.

Import LevelManager.

Variable cfg : Config.

(** Once the effect has run, [prevStatus] is the status of the store. *)
Lemma onStatusLevel_sync s :
  prevStatus (refs (onStatusLevel cfg s)) = Store.status (store (world s))
  /\ Store.status (store (world (onStatusLevel cfg s)))
     = Store.status (store (world s)).
Proof.
  unfold onStatusLevel, uuidv4. cbv zeta.
  destruct (Store.status (store (world s))) eqn:Hs, (prevStatus (refs s));
    cbn [GameStatus_eqb orb andb];
    repeat match goal with
           | |- context [if ?b then _ else _] => destruct b
           end; cbn; auto.
Qed.

(** Entering the menu clears the objects and resets the threshold, too. *)
Lemma onStatusLevel_menu s :
  Store.status (store (world s)) = MENU ->
  objects (refs (onStatusLevel cfg s)) = []
  /\ distanceTraveled (refs (onStatusLevel cfg s)) = 0
  /\ nextLetterDistance (refs (onStatusLevel cfg s)) = getLetterInterval 1.
Proof.
  intros Hs. unfold onStatusLevel. rewrite Hs. simpl. auto.
Qed.


End RestartEffect.



(* ================================================================== *)
(** * Further properties of the player *)

Section PlayerInvariants.

Import Player.

(** Invariants are carried along a run of transitions. *)
Lemma run_invariant (I : Refs * World -> Prop) ts :
  (forall t pw, In t ts -> I pw -> I (transition t pw)) ->
  forall pw, I pw -> I (run ts pw).
Proof.
  unfold run. induction ts as [| t ts IH]; intros Hstep pw H; simpl; auto.
  apply IH.
  - intros t' pw' Hin. apply Hstep. now right.
  - apply Hstep; [now left | exact H].
Qed.

(** X1.  With a lane count that is not negative, a lane inside
    [-floor(laneCount/2), floor(laneCount/2)] stays inside under every
    command, and the effect on the lane count brings any lane inside. *)
Theorem lane_stays_in_bounds :
  (forall c p w,
      (0 <= Store.laneCount (store w))%Z ->
      (- (Store.laneCount (store w) / 2) <= lane p
       <= Store.laneCount (store w) / 2)%Z ->
      (- (Store.laneCount (store w) / 2) <= lane (fst (applyCommand c (p, w)))
       <= Store.laneCount (store w) / 2)%Z)
  /\ (forall n p,
      (0 <= n)%Z ->
      (- (n / 2) <= lane (onLaneCount n p) <= n / 2)%Z).
Proof.
  split.
  - intros c p w Hn Hl.
    assert (0 <= Store.laneCount (store w) / 2)%Z by (apply Z.div_pos; lia).
    unfold applyCommand.
    destruct (Store.status (store w)); simpl; try lia.
    destruct c; simpl; lia.
  - intros n p Hn.
    assert (0 <= n / 2)%Z by (apply Z.div_pos; lia).
    unfold onLaneCount.
    destruct (n / 2 <? Z.abs (lane p))%Z eqn:E; simpl.
    + lia.
    + apply Z.ltb_ge in E. lia.
Qed.

Lemma lane_stays_in_bounds_witness :
  (- (3 / 2) <= Player.lane
                  (fst (Player.applyCommand Player.MoveRight
                          (Player.with_lane 1 Player.initial,
                           mkWorld Sample.store0 [])))
   <= 3 / 2)%Z
  /\ (- (3 / 2) <= Player.lane (Player.onLaneCount 3
                                  (Player.with_lane 4 Player.initial))
      <= 3 / 2)%Z.
Proof.
  destruct lane_stays_in_bounds as [H1 H2]. split.
  - apply (H1 Player.MoveRight (Player.with_lane 1 Player.initial)
              (mkWorld Sample.store0 [])); simpl;
      change (3 / 2)%Z with 1%Z; lia.
  - apply H2. lia.
Defined.

Lemma transition_hasDoubleJump t pw :
  Store.hasDoubleJump (store (snd (transition t pw)))
  = Store.hasDoubleJump (store (snd pw)).
Proof.
  destruct pw as [p w]. destruct t; simpl; auto.
  - destruct (Store.status (store w)); simpl; auto.
    destruct c; simpl; auto.
    unfold Store.activateImmortality.
    destruct (Store.hasImmortality (store w) && _)%bool; reflexivity.
  - destruct (isInvincible p || _)%bool; simpl; auto.
    unfold Store.takeDamage. simpl.
    destruct (Store.lives (store w) - 1 <=? 0)%Z; reflexivity.
Qed.

(** X2.  Along every run of the component from its initial state the
    jump count stays between 0 and the allowed maximum (1, or 2 with the
    double jump), and no transition of the component changes whether the
    double jump is owned. *)
Theorem jump_count_bounded (ts : list Transition) (w : World) :
  (0 <= jumpsPerformed (phys (fst (run ts (initial, w))))
   <= maxJumpsOf (Store.hasDoubleJump (store w)))%Z
  /\ Store.hasDoubleJump (store (snd (run ts (initial, w))))
     = Store.hasDoubleJump (store w).
Proof.
  apply (run_invariant
           (fun pw =>
              (0 <= jumpsPerformed (phys (fst pw))
               <= maxJumpsOf (Store.hasDoubleJump (store w)))%Z
              /\ Store.hasDoubleJump (store (snd pw))
                 = Store.hasDoubleJump (store w))).
  2:{ simpl. unfold maxJumpsOf. split; [| reflexivity].
      destruct (Store.hasDoubleJump (store w)); lia. }
  intros t [p w'] _ [Hj Hd]. split.
  2:{ now rewrite transition_hasDoubleJump. }
  simpl in Hj, Hd.
  assert (Hm : (1 <= maxJumpsOf (Store.hasDoubleJump (store w)))%Z).
  { unfold maxJumpsOf. destruct (Store.hasDoubleJump (store w)); lia. }
  destruct t; simpl.
  - destruct status; simpl; lia.
  - unfold onLaneCount. destruct (_ <? _)%Z; simpl; lia.
  - destruct (Store.status (store w')); simpl; try lia.
    destruct c; simpl; try lia.
    unfold triggerJump. rewrite Hd.
    destruct (isJumping (phys p)); simpl; [| lia].
    destruct (jumpsPerformed (phys p) <? _)%Z eqn:E; simpl; [| lia].
    apply Z.ltb_lt in E. lia.
  - unfold useFrame.
    destruct (Store.status (store w')); simpl; try lia;
      unfold stepInvincible; simpl;
      repeat match goal with
             | |- context [if ?b then _ else _] => destruct b
             end; simpl;
      unfold stepPhysics;
      repeat match goal with
             | |- context [if ?b then _ else _] => destruct b
             end; simpl; lia.
  - destruct (isInvincible p || _)%bool; simpl; lia.
Qed.

(** X3.  Along every run from the initial state the height of the player
    is never negative, whatever elapsed times the frames are given. *)
Theorem height_never_negative (ts : list Transition) (w : World) :
  0 <= posY (phys (fst (run ts (initial, w)))).
Proof.
  apply (run_invariant (fun pw => 0 <= posY (phys (fst pw)))).
  2:{ simpl. lra. }
  intros t [p w'] _ H. simpl in H.
  assert (Hstep : forall d, 0 <= posY (stepPhysics d (phys p))).
  { intros d. unfold stepPhysics.
    destruct (isJumping (phys p)); [| exact H].
    destruct (Num.leb _ 0) eqn:E; simpl.
    - destruct (0 =? 2)%Z; simpl; lra.
    - apply leb_gt in E.
      destruct (jumpsPerformed (phys p) =? 2)%Z; simpl; lra. }
  destruct t; simpl.
  - destruct status; simpl; lra.
  - unfold onLaneCount. destruct (_ <? _)%Z; simpl; exact H.
  - destruct (Store.status (store w')); simpl; try exact H.
    destruct c; simpl; try exact H.
    unfold triggerJump.
    destruct (isJumping (phys p)); simpl; [| exact H].
    destruct (jumpsPerformed (phys p) <? _)%Z; simpl; exact H.
  - unfold useFrame.
    destruct (Store.status (store w')); simpl; try exact H;
      unfold stepInvincible; simpl;
      repeat match goal with
             | |- context [if ?b then _ else _] => destruct b
             end; simpl; apply Hstep.
  - destruct (isInvincible p || _)%bool; simpl; exact H.
Qed.

Lemma PI_pos : 0 < Num.PI.
Proof. reflexivity. Qed.

(** X4.  When no frame is handed a negative elapsed time, the spin of the
    double jump stays between [-2 * Math.PI] and 0 along every run from
    the initial state. *)
Theorem spin_bounded (ts : list Transition) (w : World)
  (Hnonneg : Forall elapsedNonneg ts) :
  - Num.PI * 2 <= spinRotation (phys (fst (run ts (initial, w)))) <= 0.
Proof.
  pose proof PI_pos as Hpi.
  apply (run_invariant
           (fun pw => - Num.PI * 2 <= spinRotation (phys (fst pw)) <= 0)).
  2:{ simpl. lra. }
  intros t [p w'] Hin H. simpl in H.
  rewrite Forall_forall in Hnonneg. specialize (Hnonneg t Hin).
  assert (Hstep : forall d, 0 <= d ->
            - Num.PI * 2 <= spinRotation (stepPhysics d (phys p)) <= 0).
  { intros d Hd. unfold stepPhysics.
    destruct (isJumping (phys p)); [| exact H].
    destruct (Num.leb _ 0); simpl.
    - exact H.
    - destruct (jumpsPerformed (phys p) =? 2)%Z; simpl; [| exact H].
      destruct (Num.ltb _ _) eqn:E; [lra |].
      apply ltb_ge in E. lra. }
  destruct t; simpl.
  - destruct status; simpl; lra.
  - unfold onLaneCount. destruct (_ <? _)%Z; simpl; exact H.
  - destruct (Store.status (store w')); simpl; try exact H.
    destruct c; simpl; try exact H.
    unfold triggerJump.
    destruct (isJumping (phys p)); simpl; [| exact H].
    destruct (jumpsPerformed (phys p) <? _)%Z; simpl; [lra | exact H].
  - simpl in Hnonneg. unfold useFrame.
    destruct (Store.status (store w')); simpl; try exact H;
      unfold stepInvincible; simpl;
      repeat match goal with
             | |- context [if ?b then _ else _] => destruct b
             end; simpl; now apply Hstep.
  - destruct (isInvincible p || _)%bool; simpl; exact H.
Qed.

End PlayerInvariants.

Lemma spin_bounded_witness :
  - Num.PI * 2
  <= Player.spinRotation
       (Player.phys
          (fst (Player.run Sample.doubleJump
                  (Player.initial, mkWorld Sample.storeWings []))))
  <= 0.
Proof.
  apply (spin_bounded Sample.doubleJump (mkWorld Sample.storeWings [])).
  repeat constructor. simpl. lra.
Defined.

(** ** The player's frame *)

Section PlayerFrame.

Import Player.

(** X5.  In a frame while PLAYING or in the SHOP, with an elapsed time
    between 0 and 1/15 s, the horizontal offset moves towards the centre
    of the player's lane without passing it: the remaining distance is
    the old one times [1 - 15 * delta]. *)
Theorem offset_approaches_lane (LW : Q) (st : Store.t) (now : Z) (delta : Q)
  (p : Refs)
  (Hstatus : Store.status st = PLAYING \/ Store.status st = SHOP)
  (Hdelta : 0 <= delta <= 1 # 15) :
  targetX (useFrame LW st now delta p) = inject_Z (lane p) * LW
  /\ posX (useFrame LW st now delta p) - inject_Z (lane p) * LW
     == (1 - 15 * delta) * (posX p - inject_Z (lane p) * LW)
  /\ Qabs (posX (useFrame LW st now delta p) - inject_Z (lane p) * LW)
     <= Qabs (posX p - inject_Z (lane p) * LW).
Proof.
  assert (Hx : posX (useFrame LW st now delta p)
               = Num.lerp (posX p) (inject_Z (lane p) * LW) (delta * 15)
               /\ targetX (useFrame LW st now delta p)
                  = inject_Z (lane p) * LW).
  { unfold useFrame, stepInvincible.
    destruct Hstatus as [-> | ->]; simpl;
      repeat match goal with
             | |- context [if ?b then _ else _] => destruct b
             end; simpl; auto. }
  destruct Hx as [Hx Ht]. rewrite Hx. unfold Num.lerp.
  split; [exact Ht |].
  assert (He : (1 - delta * 15) * posX p + delta * 15 * (inject_Z (lane p) * LW)
               - inject_Z (lane p) * LW
               == (1 - 15 * delta) * (posX p - inject_Z (lane p) * LW))
    by ring.
  split; [exact He |].
  rewrite He, Qabs_Qmult.
  assert (H1 : Qabs (1 - 15 * delta) <= 1).
  { apply Qabs_Qle_condition. lra. }
  pose proof (Qabs_nonneg (posX p - inject_Z (lane p) * LW)) as H0.
  setoid_replace (Qabs (posX p - inject_Z (lane p) * LW))
    with (1 * Qabs (posX p - inject_Z (lane p) * LW)) at 2 by ring.
  apply Qmult_le_compat_r; assumption.
Qed.

(** X6.  The damage window from end to end.  After a hit that calls
    [takeDamage] at time [t0], a frame at [t1] and a second hit at [t2]:
    if the frame comes within 1500 ms of the first hit, the second hit
    does not call [takeDamage]; if it comes later (the game still being
    played and the skill not active) the second hit calls it again. *)
Theorem damage_window_1500 (LW : Q) (d : Q) (t0 t1 t2 : Z) (p : Refs)
  (w : World)
  (Hfresh : isInvincible p = false)
  (Hskill : Store.isImmortalityActive (store w) = false)
  (Hplaying : Store.status (Store.takeDamage (store w)) = PLAYING) :
  countEffect isCallTakeDamage (log (snd (run [THit t0] (p, w))))
  = S (countEffect isCallTakeDamage (log w))
  /\ ((t1 - t0 <= 1500)%Z ->
      countEffect isCallTakeDamage
        (log (snd (run [THit t0; TFrame LW t1 d; THit t2] (p, w))))
      = S (countEffect isCallTakeDamage (log w)))
  /\ ((1500 < t1 - t0)%Z ->
      countEffect isCallTakeDamage
        (log (snd (run [THit t0; TFrame LW t1 d; THit t2] (p, w))))
      = S (S (countEffect isCallTakeDamage (log w)))).
Proof.
  assert (Hk : Store.isImmortalityActive (Store.takeDamage (store w)) = false).
  { unfold Store.takeDamage. simpl.
    destruct (Store.lives (store w) - 1 <=? 0)%Z; exact Hskill. }
  unfold run. simpl. rewrite Hfresh, Hskill. simpl.
  unfold useFrame. simpl. rewrite Hplaying.
  unfold stepInvincible. simpl.
  split; [rewrite countEffect_app; simpl; lia | split].
  - intros Ht. apply Z.ltb_ge in Ht. rewrite Ht. simpl.
    rewrite countEffect_app. simpl. lia.
  - intros Ht. apply Z.ltb_lt in Ht. rewrite Ht. simpl.
    rewrite Hk. simpl. rewrite !countEffect_app. simpl. lia.
Qed.

End PlayerFrame.

Lemma offset_approaches_lane_witness :
  Qabs (Player.posX (Player.useFrame 2.2 Sample.store0 0%Z 0.02
                       (Player.with_lane 1 Player.initial))
        - inject_Z 1 * 2.2)
  <= Qabs (0 - inject_Z 1 * 2.2).
Proof.
  apply (offset_approaches_lane 2.2 Sample.store0 0%Z 0.02
           (Player.with_lane 1 Player.initial)).
  - now left.
  - split; lra.
Defined.

Lemma damage_window_1500_witness :
  countEffect isCallTakeDamage
    (log (snd (Player.run
                 [Player.THit 1000; Player.TFrame 2.2 3000 0.02;
                  Player.THit 3100]
                 (Player.initial, mkWorld Sample.store0 []))))
  = 2%nat.
Proof.
  destruct (damage_window_1500 2.2 0.02 1000 3000 3100 Player.initial
              (mkWorld Sample.store0 [])) as (_ & _ & H).
  - reflexivity.
  - reflexivity.
  - reflexivity.
  - apply H. lia.
Defined.

(* ================================================================== *)
(** * Further properties of the level manager *)

(** ** Damage within one frame *)

Section FrameDamage.

Import LevelManager.

Variable cfg : Config.
Variable rnd : nat -> Q.

(** The collision block calls [takeDamage] at most once, only for a
    player that is not invulnerable, and leaves the player invulnerable
    when it does; otherwise it does not touch the player's refs. *)
Lemma collide_damage imm now pp prevZ obj p w :
  (countTakeDamage (cworld (collide cfg imm now pp prevZ obj p w))
   = countTakeDamage w
   /\ cplayer (collide cfg imm now pp prevZ obj p w) = p)
  \/ (countTakeDamage (cworld (collide cfg imm now pp prevZ obj p w))
      = S (countTakeDamage w)
      /\ Player.isInvincible (cplayer (collide cfg imm now pp prevZ obj p w))
         = true
      /\ (Player.isInvincible p || imm)%bool = false).
Proof.
  unfold collide, countTakeDamage.
  destruct (active obj); [| now left].
  destruct (ObjectType_eqb (type obj) SHOP_PORTAL).
  { cbv zeta. destruct (Num.ltb _ 2); [| now left].
    left. cbn [cworld cplayer log]. rewrite countEffect_app. simpl.
    split; [lia | reflexivity]. }
  cbv zeta.
  destruct (Num.ltb prevZ _ && _)%bool; [| now left].
  destruct (Num.ltb (Qabs (X (position obj) - X pp)) 0.9); [| now left].
  destruct (isDamageSource (type obj)).
  - destruct (verticalOverlap pp obj); [| now left].
    unfold Player.checkHit, emit.
    destruct (Player.isInvincible p || imm)%bool eqn:E;
      cbn [cworld cplayer log store Player.isInvincible];
      rewrite !countEffect_app; cbn [isCallTakeDamage].
    + left. split; [lia | reflexivity].
    + right. repeat split; lia.
  - destruct (Num.ltb (Qabs (Y (position obj) - Y pp)) 2.5); [| now left].
    left. unfold emit. cbn [cworld cplayer log store].
    rewrite countEffect_app. cbn [isCallTakeDamage].
    split; [| reflexivity].
    destruct (type obj); destruct (targetIndex obj);
      cbn [log]; rewrite ?countEffect_app; cbn [isCallTakeDamage]; lia.
Qed.

Lemma stepObject_damage imm speed sd f acc o :
  (countTakeDamage (lworld (stepObject cfg imm speed sd f acc o))
   = countTakeDamage (lworld acc)
   /\ lplayer (stepObject cfg imm speed sd f acc o) = lplayer acc)
  \/ (countTakeDamage (lworld (stepObject cfg imm speed sd f acc o))
      = S (countTakeDamage (lworld acc))
      /\ Player.isInvincible (lplayer (stepObject cfg imm speed sd f acc o))
         = true
      /\ (Player.isInvincible (lplayer acc) || imm)%bool = false).
Proof.
  unfold stepObject. cbv zeta. cbn [lworld lplayer].
  apply collide_damage.
Qed.

Lemma fold_stepObject_damage imm speed sd f objs : forall acc,
  (countTakeDamage
     (lworld (fold_left (stepObject cfg imm speed sd f) objs acc))
   = countTakeDamage (lworld acc)
   /\ lplayer (fold_left (stepObject cfg imm speed sd f) objs acc)
      = lplayer acc)
  \/ (countTakeDamage
        (lworld (fold_left (stepObject cfg imm speed sd f) objs acc))
      = S (countTakeDamage (lworld acc))
      /\ Player.isInvincible
           (lplayer (fold_left (stepObject cfg imm speed sd f) objs acc))
         = true
      /\ (Player.isInvincible (lplayer acc) || imm)%bool = false).
Proof.
  induction objs as [| o objs IH]; intros acc; simpl; [now left |].
  destruct (stepObject_damage imm speed sd f acc o)
    as [(Hc & Hp) | (Hc & Hi & Hn)];
    destruct (IH (stepObject cfg imm speed sd f acc o))
      as [(Ic & Ip) | (Ic & Ii & In_)].
  - left. split; congruence.
  - right. rewrite Hp in In_. repeat split; congruence.
  - right. repeat split; congruence.
  - rewrite Hi in In_. discriminate.
Qed.

(** X7.  However many damage sources the player touches in one frame,
    the frame calls [takeDamage] at most once; it does not call it at
    all when the frame starts with the damage window open or the skill
    active. *)
Theorem frame_damages_at_most_once (f : FrameIn) (s : Sim) :
  (countTakeDamage (world (useFrame cfg rnd f s))
   <= S (countTakeDamage (world s)))%nat
  /\ ((Player.isInvincible (player s)
       || Store.isImmortalityActive (store (world s)))%bool = true ->
      countTakeDamage (world (useFrame cfg rnd f s))
      = countTakeDamage (world s)).
Proof.
  destruct (Store.status (store (world s))) eqn:Hs;
    try (rewrite useFrame_idle by congruence; split; [lia | reflexivity]).
  destruct (useFrame_playing cfg rnd f s Hs) as (_ & Hw & _).
  cbv zeta in Hw. rewrite Hw. unfold loopOf, runLoop.
  destruct (fold_stepObject_damage
              (Store.isImmortalityActive (store (world s)))
              (Store.speed (store (world s))) (safeDeltaOf (delta f)) f
              (objects (refs s))
              (mkLoop false [] [] [] (player s) (world s) (gen s)))
    as [(Hc & _) | (Hc & _ & Hn)]; cbn [lworld lplayer] in *; rewrite Hc.
  - split; [lia | reflexivity].
  - split; [lia |]. intros H. rewrite H in Hn. discriminate.
Qed.

End FrameDamage.

(** ** Inactive objects, pruning and the scarecrow *)

Section ObjectFates.

Import LevelManager.

Variable cfg : Config.
Variable rnd : nat -> Q.

(** X8.  An inactive object is only moved by the loop: it stays inactive,
    it triggers no store call, no event and no projectile, and leaves the
    player's refs alone. *)
Theorem inactive_object_is_inert (imm : bool) (speed sd : Q) (f : FrameIn)
  (acc : Loop) (o : GameObject) (Hinactive : active o = false) :
  moved (stepObject cfg imm speed sd f acc o)
  = moved acc ++ [moveZ (moveAmountOf speed sd (type o)) o]
  /\ active (moveZ (moveAmountOf speed sd (type o)) o) = false
  /\ lworld (stepObject cfg imm speed sd f acc o) = lworld acc
  /\ lplayer (stepObject cfg imm speed sd f acc o) = lplayer acc
  /\ newSpawns (stepObject cfg imm speed sd f acc o) = newSpawns acc
  /\ lgen (stepObject cfg imm speed sd f acc o) = lgen acc.
Proof.
  unfold stepObject. cbv zeta.
  assert (Hf : (ObjectType_eqb
                  (type (moveZ (moveAmountOf speed sd (type o)) o)) ALIEN
                && active (moveZ (moveAmountOf speed sd (type o)) o)
                && notFired (moveZ (moveAmountOf speed sd (type o)) o)
                && Num.gtb (Z_ (position (moveZ (moveAmountOf speed sd (type o)) o)))
                           (-90))%bool = false).
  { cbn [active moveZ]. rewrite Hinactive.
    now rewrite andb_false_r. }
  rewrite Hf. rewrite collide_inactive by exact Hinactive.
  cbn [moved lworld lplayer newSpawns lgen cobj cworld cplayer].
  rewrite app_nil_r. repeat split; auto.
Qed.

Lemma collide_position imm now pp prevZ obj p w :
  position (cobj (collide cfg imm now pp prevZ obj p w)) = position obj
  /\ hasFired (cobj (collide cfg imm now pp prevZ obj p w)) = hasFired obj.
Proof.
  destruct (collide_cases cfg imm now pp prevZ obj p w)
    as [(Hc & _) | [(_ & _ & Hc) | (_ & Hc & _)]];
    cbv zeta in Hc; rewrite Hc; simpl; auto.
Qed.

(** What an iteration keeps is within the removal distance, and an
    iteration that sets no change keeps exactly what it moved. *)
Lemma stepObject_kept imm speed sd f acc o :
  exists o3,
    moved (stepObject cfg imm speed sd f acc o) = moved acc ++ [o3]
    /\ ((keptObjects (stepObject cfg imm speed sd f acc o) = keptObjects acc
         /\ hasChanges (stepObject cfg imm speed sd f acc o) = true)
        \/ (keptObjects (stepObject cfg imm speed sd f acc o)
            = keptObjects acc ++ [o3]
            /\ Z_ (position o3) <= REMOVE_DISTANCE cfg
            /\ (hasChanges (stepObject cfg imm speed sd f acc o) = false ->
                hasChanges acc = false))).
Proof.
  unfold stepObject. cbv zeta. cbn [moved keptObjects hasChanges].
  eexists. split; [reflexivity |].
  match goal with
  | |- context [collide ?a ?b ?c ?d ?e ?o2 ?p ?w] =>
      set (c0 := collide a b c d e o2 p w)
  end.
  destruct (keep c0) eqn:Hk; cbn [andb].
  - destruct (Num.gtb (Z_ (position (cobj c0))) (REMOVE_DISTANCE cfg)) eqn:Ht;
      cbn [negb].
    + left. split; [reflexivity |]. now rewrite !orb_true_r.
    + right. apply ltb_ge in Ht. split; [reflexivity | split; [exact Ht |]].
      intros H. rewrite !orb_false_iff in H. tauto.
  - left. split; [reflexivity |].
    assert (Hch : changed c0 = true).
    { subst c0.
      match goal with
      | Hk : keep (collide ?a ?b ?c ?d ?e ?o2 ?p ?w) = false |- _ =>
          destruct (collide_cases a b c d e o2 p w)
            as [(Hc & _) | [(_ & _ & Hc) | (_ & _ & Hc & _)]];
            cbv zeta in Hc
      end.
      - rewrite Hc in Hk. discriminate.
      - rewrite Hc. reflexivity.
      - rewrite Hc in Hk. discriminate. }
    rewrite Hch. now rewrite orb_true_r.
Qed.

Lemma fold_stepObject_kept imm speed sd f objs : forall acc,
  exists ms ks,
    moved (fold_left (stepObject cfg imm speed sd f) objs acc)
    = moved acc ++ ms
    /\ keptObjects (fold_left (stepObject cfg imm speed sd f) objs acc)
       = keptObjects acc ++ ks
    /\ Forall (fun o => Z_ (position o) <= REMOVE_DISTANCE cfg) ks
    /\ (hasChanges (fold_left (stepObject cfg imm speed sd f) objs acc) = false ->
        hasChanges acc = false /\ ks = ms).
Proof.
  induction objs as [| o objs IH]; intros acc.
  - exists [], []. simpl. rewrite !app_nil_r. auto.
  - simpl fold_left.
    destruct (stepObject_kept imm speed sd f acc o) as (o3 & Hm & Hk).
    destruct (IH (stepObject cfg imm speed sd f acc o))
      as (ms & ks & Im & Ik & If & Ih).
    rewrite Im, Ik, Hm.
    destruct Hk as [(Hk & Hc) | (Hk & Hz & Hc)]; rewrite Hk.
    + exists (o3 :: ms), ks. rewrite <- app_assoc. simpl.
      split; [reflexivity | split; [reflexivity | split; [exact If |]]].
      intros H. destruct (Ih H) as [H1 _]. congruence.
    + exists (o3 :: ms), (o3 :: ks). rewrite <- !app_assoc. simpl.
      split; [reflexivity | split; [reflexivity | split]].
      * now constructor.
      * intros H. destruct (Ih H) as [H1 H2]. split; [auto | congruence].
Qed.

(** X9.  After a frame while PLAYING every object in the store lies
    within the removal distance, unless it is a projectile thrown or an
    object spawned in this very frame. *)
Theorem store_pruned_beyond_remove_distance (f : FrameIn) (s : Sim)
  (o' : GameObject)
  (Hplaying : Store.status (store (world s)) = PLAYING)
  (Hin : In o' (objects (refs (useFrame cfg rnd f s)))) :
  Z_ (position o') <= REMOVE_DISTANCE cfg
  \/ In o' (newSpawns (loopOf cfg f s))
  \/ In o' (pushed (spawnOf cfg rnd f s)).
Proof.
  destruct (useFrame_playing cfg rnd f s Hplaying) as (Hr & _).
  cbv zeta in Hr. rewrite Hr in Hin. cbn [objects] in Hin.
  unfold loopOf, runLoop in *.
  destruct (fold_stepObject_kept
              (Store.isImmortalityActive (store (world s)))
              (Store.speed (store (world s))) (safeDeltaOf (delta f)) f
              (objects (refs s))
              (mkLoop false [] [] [] (player s) (world s) (gen s)))
    as (ms & ks & Hm & Hk & Hf & Hh).
  cbn [moved keptObjects app] in Hm, Hk.
  rewrite Forall_forall in Hf.
  match type of Hin with
  | In _ (if ?b then _ else _) => destruct b eqn:Hb
  end.
  - unfold keptAfterLoop in Hin. rewrite !in_app_iff in Hin.
    destruct Hin as [[H | H] | H]; auto.
    left. apply Hf. now rewrite <- Hk.
  - apply orb_false_iff in Hb. destruct Hb as [Hb _].
    destruct (Hh Hb) as [_ He]. left. apply Hf.
    rewrite He, <- Hm. exact Hin.
Qed.

(** X10.  A scarecrow throws its pitchfork in the iteration in which it
    is an active scarecrow that has not fired and has come closer than
    90: the projectile starts at height 1.0, 2 behind the scarecrow, in
    its lane, and the scarecrow is marked as having fired.  Otherwise no
    projectile is created, and a scarecrow that has fired keeps the mark,
    so it never fires again. *)
Theorem scarecrow_fires_once (imm : bool) (speed sd : Q) (f : FrameIn)
  (acc : Loop) (o : GameObject) :
  exists o3,
    moved (stepObject cfg imm speed sd f acc o) = moved acc ++ [o3]
    /\ (firesNow speed sd o = true ->
        newSpawns (stepObject cfg imm speed sd f acc o)
        = newSpawns acc
          ++ [mkObj (nextId (lgen acc)) MISSILE
                    (mkVec3 (X (position o)) 1.0
                            (Z_ (position o) + moveAmountOf speed sd (type o) + 2))
                    true (Some "#8b0000"%string) None None None None]
        /\ hasFired o3 = Some true)
    /\ (firesNow speed sd o = false ->
        newSpawns (stepObject cfg imm speed sd f acc o) = newSpawns acc
        /\ hasFired o3 = hasFired o)
    /\ (hasFired o = Some true -> firesNow speed sd o = false)
    /\ (forall speed' sd', hasFired o3 = Some true ->
        firesNow speed' sd' o3 = false).
Proof.
  unfold stepObject. cbv zeta. cbn [moved newSpawns].
  eexists. split; [reflexivity |].
  fold (firesNow speed sd o).
  match goal with
  | |- context [collide ?a ?b ?c ?d ?e ?o2 ?p ?w] =>
      destruct (collide_position b c d e o2 p w) as [_ Hh]; rewrite Hh
  end.
  assert (Hmark : forall x sp sd', hasFired x = Some true ->
                                   firesNow sp sd' x = false).
  { intros x sp sd' Hx. unfold firesNow. cbv zeta.
    unfold notFired. cbn [hasFired moveZ]. rewrite Hx.
    now rewrite andb_false_r. }
  split; [| split; [| split]].
  - intros Hf. rewrite Hf. split; reflexivity.
  - intros Hf. rewrite Hf. rewrite app_nil_r. split; reflexivity.
  - apply Hmark.
  - intros sp sd' Hx. apply Hmark. rewrite Hh. exact Hx.
Qed.

End ObjectFates.

Lemma store_pruned_beyond_remove_distance_witness :
  Z_ (position (LevelManager.moveZ (22.5 * 0.02) (Sample.obstacleAt (-50))))
  <= 20
  \/ In (LevelManager.moveZ (22.5 * 0.02) (Sample.obstacleAt (-50)))
        (LevelManager.newSpawns
           (LevelManager.loopOf Sample.cfg Sample.frame0
              (Sample.simWith Sample.store0 [Sample.obstacleAt (-50)] 0 150)))
  \/ In (LevelManager.moveZ (22.5 * 0.02) (Sample.obstacleAt (-50)))
        (LevelManager.pushed
           (LevelManager.spawnOf Sample.cfg Sample.rnd Sample.frame0
              (Sample.simWith Sample.store0 [Sample.obstacleAt (-50)] 0 150))).
Proof.
  apply (store_pruned_beyond_remove_distance Sample.cfg Sample.rnd
           Sample.frame0
           (Sample.simWith Sample.store0 [Sample.obstacleAt (-50)] 0 150)).
  - reflexivity.
  - vm_compute. left. reflexivity.
Defined.

Lemma inactive_object_is_inert_witness :
  LevelManager.lworld
    (LevelManager.stepObject Sample.cfg false 22.5 0.02 Sample.frame0
       (LevelManager.mkLoop false [] [] [] Player.initial
          (mkWorld Sample.store0 []) (LevelManager.mkGen 0 0))
       (LevelManager.deactivate (Sample.obstacleAt (-2))))
  = mkWorld Sample.store0 [].
Proof.
  apply (inactive_object_is_inert Sample.cfg false 22.5 0.02 Sample.frame0
           (LevelManager.mkLoop false [] [] [] Player.initial
              (mkWorld Sample.store0 []) (LevelManager.mkGen 0 0))
           (LevelManager.deactivate (Sample.obstacleAt (-2)))).
  reflexivity.
Defined.

(** ** The effect on status and level *)

Section StatusEffect.

Import LevelManager.

Variable cfg : Config.

(** X11.  When the level has gone up while PLAYING (and this is not a
    restart), the effect keeps exactly the objects nearer than 80, adds
    one active portal at [[0, 0, -100]], leaves the distance travelled
    and the store alone, and sets the letter threshold to the distance
    minus [SPAWN_DISTANCE] plus the interval of the new level. *)
Theorem level_up_injects_portal (s : Sim)
  (Hplaying : Store.status (store (world s)) = PLAYING)
  (Hlevel : Store.level (store (world s)) <> prevLevel (refs s))
  (Habove : (1 < Store.level (store (world s)))%Z)
  (Hrunning : prevStatus (refs s) <> GAME_OVER
              /\ prevStatus (refs s) <> VICTORY) :
  (forall o,
      In o (objects (refs (onStatusLevel cfg s)))
      <-> (In o (objects (refs s)) /\ -80 < Z_ (position o))
          \/ o = mkObj (nextId (gen s)) SHOP_PORTAL (mkVec3 0 0 (-100)) true
                       None None None None None)
  /\ distanceTraveled (refs (onStatusLevel cfg s)) = distanceTraveled (refs s)
  /\ nextLetterDistance (refs (onStatusLevel cfg s))
     = distanceTraveled (refs s) - SPAWN_DISTANCE cfg
       + getLetterInterval (Store.level (store (world s)))
  /\ world (onStatusLevel cfg s) = world s
  /\ prevLevel (refs (onStatusLevel cfg s)) = Store.level (store (world s)).
Proof.
  destruct Hrunning as [Hg Hv].
  unfold onStatusLevel, uuidv4. cbv zeta. rewrite Hplaying.
  assert (E1 : GameStatus_eqb (prevStatus (refs s)) GAME_OVER = false).
  { destruct (prevStatus (refs s)); simpl; congruence. }
  assert (E2 : GameStatus_eqb (prevStatus (refs s)) VICTORY = false).
  { destruct (prevStatus (refs s)); simpl; congruence. }
  assert (E3 : (Store.level (store (world s)) =? prevLevel (refs s))%Z = false)
    by now apply Z.eqb_neq.
  assert (E4 : (1 <? Store.level (store (world s)))%Z = true)
    by now apply Z.ltb_lt.
  cbn [GameStatus_eqb orb andb]. rewrite E1, E2, E3, E4. cbn.
  repeat split; auto.
  - rewrite in_app_iff, filter_In. intros [[Hi Hz] | [<- | []]]; auto.
    left. apply gtb_gt in Hz. auto.
  - rewrite in_app_iff, filter_In. intros [[Hi Hz] | ->].
    + left. split; [exact Hi |]. now apply gtb_gt.
    + right. now left.
Qed.

(** X12.  Running the effect a second time with nothing changed in
    between leaves the component's refs as the first run left them: no
    second portal, no second reset. *)
Theorem effect_rerun_keeps_refs (s : Sim) :
  refs (onStatusLevel cfg (onStatusLevel cfg s)) = refs (onStatusLevel cfg s).
Proof.
  unfold onStatusLevel, uuidv4. cbv zeta.
  destruct (Store.status (store (world s))) eqn:Hs,
           (prevStatus (refs s)) eqn:Hp;
    cbn [GameStatus_eqb orb andb];
    destruct (Store.level (store (world s)) =? prevLevel (refs s))%Z;
    destruct (1 <? Store.level (store (world s)))%Z;
    cbn -[Z.eqb Z.ltb Qfloor]; rewrite ?Hs; cbn -[Z.eqb Z.ltb Qfloor];
    rewrite ?Z.eqb_refl; cbn -[Z.eqb Z.ltb Qfloor]; reflexivity.
Qed.

End StatusEffect.

Lemma level_up_injects_portal_witness :
  LevelManager.nextLetterDistance
    (LevelManager.refs
       (LevelManager.onStatusLevel Sample.cfg
          (LevelManager.mkSim
             (LevelManager.mkRefs [Sample.obstacleAt (-100)] PLAYING 1 400 450)
             Player.initial
             (mkWorld (Store.mk PLAYING 0%Z 3%Z 3%Z 2%Z [] 0%Z 22.5 3%Z
                                false false false) [])
             (LevelManager.mkGen 0 0))))
  = 400 - 120 + LevelManager.getLetterInterval 2.
Proof.
  refine (proj1 (proj2 (proj2
    (level_up_injects_portal Sample.cfg
       (LevelManager.mkSim
          (LevelManager.mkRefs [Sample.obstacleAt (-100)] PLAYING 1 400 450)
          Player.initial
          (mkWorld (Store.mk PLAYING 0%Z 3%Z 3%Z 2%Z [] 0%Z 22.5 3%Z
                             false false false) [])
          (LevelManager.mkGen 0 0))
       eq_refl _ _ _)))).
  - simpl. discriminate.
  - simpl. lia.
  - simpl. split; discriminate.
Defined.

(** ** Letter intervals *)

Section Intervals.

Import LevelManager.

Lemma pow15_ge_1 (n : Z) : (0 <= n)%Z -> 1 <= 1.5 ^ n.
Proof.
  revert n. apply natlike_ind.
  - simpl. lra.
  - intros n Hn IH. unfold Z.succ.
    rewrite Qpower_plus by (intros H; discriminate H).
    change (1.5 ^ 1) with 1.5. nra.
Qed.

(** X13.  The letter interval is never below the base interval of 150;
    at level 1 and at any lower level it is exactly 150; each level above
    1 multiplies it by 1.5; and it does not decrease with the level. *)
Theorem letter_interval_bounds :
  (forall L, BASE_LETTER_INTERVAL <= getLetterInterval L)
  /\ (forall L, (L <= 1)%Z -> getLetterInterval L == BASE_LETTER_INTERVAL)
  /\ (forall L, (1 <= L)%Z ->
      getLetterInterval (L + 1) == 1.5 * getLetterInterval L)
  /\ (forall L L', (L <= L')%Z -> getLetterInterval L <= getLetterInterval L').
Proof.
  assert (Hstep : forall n, (0 <= n)%Z -> 1.5 ^ (n + 1) == 1.5 * 1.5 ^ n).
  { intros n Hn. rewrite Qpower_plus by (intros H; discriminate H).
    change (1.5 ^ 1) with 1.5. ring. }
  assert (Hmono : forall n m, (0 <= n <= m)%Z -> 1.5 ^ n <= 1.5 ^ m).
  { intros n m [Hn Hm].
    replace m with (n + (m - n))%Z by lia.
    rewrite Qpower_plus by (intros H; discriminate H).
    pose proof (pow15_ge_1 n Hn). pose proof (pow15_ge_1 (m - n) ltac:(lia)).
    nra. }
  unfold getLetterInterval, BASE_LETTER_INTERVAL.
  split; [| split; [| split]].
  - intros L. pose proof (pow15_ge_1 (Z.max 0 (L - 1)) ltac:(lia)). lra.
  - intros L HL. rewrite Z.max_l by lia. simpl. reflexivity.
  - intros L HL. rewrite !Z.max_r by lia.
    replace (L + 1 - 1)%Z with (L - 1 + 1)%Z by lia.
    rewrite Hstep by lia. ring.
  - intros L L' HL.
    pose proof (Hmono (Z.max 0 (L - 1)) (Z.max 0 (L' - 1)) ltac:(lia)).
    lra.
Qed.

End Intervals.

Lemma letter_interval_bounds_witness :
  LevelManager.getLetterInterval 0 == 150
  /\ LevelManager.getLetterInterval 2 <= LevelManager.getLetterInterval 3.
Proof.
  destruct letter_interval_bounds as (_ & H2 & _ & H4). split.
  - apply H2. lia.
  - apply H4. lia.
Defined.

(** ** Random lanes and random picks *)

Section RandomChoices.

Import LevelManager.

Variable cfg : Config.
Variable rnd : nat -> Q.

(** [Math.floor(r * k)] for [0 <= r < 1] and a positive integer [k] is
    one of [0, ..., k - 1]. *)
Lemma floor_scaled (r : Q) (k : Z) :
  0 <= r < 1 -> (0 < k)%Z ->
  (0 <= Qfloor (r * inject_Z k) < k)%Z.
Proof.
  intros [H0 H1] Hk.
  assert (Hk' : 0 < inject_Z k).
  { change 0 with (inject_Z 0). now rewrite <- Zlt_Qlt. }
  split.
  - rewrite <- (Qfloor_Z 0). apply Qfloor_resp_le.
    change (inject_Z 0) with 0. now apply Qmult_le_0_compat; [| apply Qlt_le_weak].
  - rewrite Zlt_Qlt.
    apply Qle_lt_trans with (r * inject_Z k); [apply Qfloor_le |].
    setoid_replace (inject_Z k) with (1 * inject_Z k) at 2 by ring.
    now apply Qmult_lt_compat_r.
Qed.

(** X14.  For a lane count that is not negative and a random number in
    [0, 1), [getRandomLane] returns a lane between [-floor(laneCount/2)]
    and [floor(laneCount/2)], and draws exactly one random number. *)
Theorem getRandomLane_in_bounds (laneCount : Z) (g : Gen)
  (Hcount : (0 <= laneCount)%Z)
  (Hrandom : 0 <= rnd (cursor g) < 1) :
  (- (laneCount / 2) <= fst (getRandomLane rnd laneCount g) <= laneCount / 2)%Z
  /\ snd (getRandomLane rnd laneCount g) = mkGen (S (cursor g)) (nextId g).
Proof.
  unfold getRandomLane, random, bind, ret. cbn [fst snd].
  split; [| reflexivity].
  assert (Hm : (0 <= laneCount / 2)%Z) by (apply Z.div_pos; lia).
  pose proof (floor_scaled (rnd (cursor g)) (laneCount / 2 * 2 + 1)
                Hrandom ltac:(lia)).
  lia.
Qed.

Lemma pick_in {A} (xs : list A) (r : Q) :
  xs <> [] -> 0 <= r < 1 -> exists x, pick xs r = Some x /\ In x xs.
Proof.
  intros Hx Hr. unfold pick.
  assert (Hl : (0 < Z.of_nat (List.length xs))%Z).
  { destruct xs; [congruence | simpl; lia]. }
  destruct (floor_scaled r (Z.of_nat (List.length xs)) Hr Hl) as [H0 H1].
  destruct (_ <? 0)%Z eqn:E; [apply Z.ltb_lt in E; lia |].
  destruct (nth_error xs (Z.to_nat (Qfloor (r * inject_Z (Z.of_nat (List.length xs))))))
    as [x |] eqn:En.
  - exists x. split; [reflexivity |]. eapply nth_error_In; eauto.
  - apply nth_error_None in En. lia.
Qed.

Lemma availableIndices_spec collected i :
  In i (availableIndices cfg collected)
  <-> (i < List.length (TARGET_WORD cfg))%nat
      /\ Store.includes collected i = false.
Proof.
  unfold availableIndices. rewrite filter_In, in_seq, negb_true_iff.
  split; intros [H1 H2]; split; auto; lia.
Qed.

(** The letter the letter branch creates. *)
Lemma spawn_letter_object st d next kept g :
  spawnOpportunity cfg kept = true ->
  Num.geb d next = true ->
  availableIndices cfg (Store.collectedLetters st) <> [] ->
  pushed (fst (spawn cfg rnd st d next kept g))
  = [mkObj (nextId g) LETTER
           (mkVec3 (inject_Z (fst (getRandomLane rnd (Store.laneCount st) g))
                    * LANE_WIDTH cfg)
                   1.0 (spawnZOf cfg (Store.speed st) kept))
           true
           (at_ (THEME_COLORS cfg)
                (pick (availableIndices cfg (Store.collectedLetters st))
                      (rnd (S (cursor g)))))
           (at_ (TARGET_WORD cfg)
                (pick (availableIndices cfg (Store.collectedLetters st))
                      (rnd (S (cursor g)))))
           (pick (availableIndices cfg (Store.collectedLetters st))
                 (rnd (S (cursor g))))
           None None].
Proof.
  intros Ho Hd Ha. unfold spawn. rewrite Ho, Hd.
  unfold spawnLetter, getRandomLane, random, uuidv4, bind, ret.
  destruct (availableIndices cfg (Store.collectedLetters st)) eqn:E;
    [congruence |].
  reflexivity.
Qed.

(** X15.  A letter spawned with a random number in [0, 1) always aims at
    an index of the target word that is not yet collected, and shows the
    character of the word at that index. *)
Theorem spawned_letter_targets_missing_index (f : FrameIn) (s : Sim)
  (Hplaying : Store.status (store (world s)) = PLAYING)
  (Hopportunity : spawnOpportunity cfg (keptAfterLoop (loopOf cfg f s)) = true)
  (Hdue : isLetterDue f s = true)
  (Hmissing : ~ lettersComplete cfg s)
  (Hrandom : 0 <= rnd (S (cursor (lgen (loopOf cfg f s)))) < 1) :
  exists o i,
    pushed (spawnOf cfg rnd f s) = [o]
    /\ type o = LETTER /\ active o = true
    /\ targetIndex o = Some i
    /\ (i < List.length (TARGET_WORD cfg))%nat
    /\ Store.includes (Store.collectedLetters (store (world s))) i = false
    /\ value o = nth_error (TARGET_WORD cfg) i.
Proof.
  unfold spawnOf.
  rewrite (spawn_letter_object (store (world s)) _ _ _ (lgen (loopOf cfg f s))
             Hopportunity Hdue Hmissing).
  destruct (pick_in (availableIndices cfg
                       (Store.collectedLetters (store (world s))))
                    _ Hmissing Hrandom) as (i & Hp & Hi).
  apply availableIndices_spec in Hi. destruct Hi as [Hl Hn].
  eexists. exists i. split; [reflexivity |].
  cbn [type active targetIndex value]. rewrite Hp. cbn [at_].
  repeat split; auto.
Qed.

End RandomChoices.

Lemma getRandomLane_in_bounds_witness :
  (- (3 / 2)
   <= fst (LevelManager.getRandomLane Sample.rnd 3 (LevelManager.mkGen 0 0))
   <= 3 / 2)%Z.
Proof.
  apply (getRandomLane_in_bounds Sample.rnd 3 (LevelManager.mkGen 0 0)).
  - lia.
  - unfold Sample.rnd. split; lra.
Defined.

Lemma spawned_letter_targets_missing_index_witness :
  exists o i,
    LevelManager.pushed
      (LevelManager.spawnOf Sample.cfg Sample.rnd Sample.frame0
         (Sample.simWith Sample.store0 [] 150 150)) = [o]
    /\ type o = LETTER /\ active o = true
    /\ targetIndex o = Some i
    /\ (i < 6)%nat
    /\ Store.includes [] i = false
    /\ value o = nth_error (TARGET_WORD Sample.cfg) i.
Proof.
  apply (spawned_letter_targets_missing_index Sample.cfg Sample.rnd
           Sample.frame0 (Sample.simWith Sample.store0 [] 150 150)).
  - reflexivity.
  - reflexivity.
  - reflexivity.
  - unfold LevelManager.lettersComplete. simpl. discriminate.
  - unfold Sample.rnd. split; lra.
Defined.

(** ** What is spawned, and where *)

Section SpawnShape.

Import LevelManager.

Variable cfg : Config.
Variable rnd : nat -> Q.

(** Every object the spawning block pushes is active and sits at
    [spawnZ]. *)
Lemma spawn_pushed_at st d next kept g :
  Forall (fun o => active o = true
                   /\ Z_ (position o) = spawnZOf cfg (Store.speed st) kept)
         (pushed (fst (spawn cfg rnd st d next kept g))).
Proof.
  unfold spawn, spawnLetter, spawnRandom, getRandomLane, random, uuidv4,
    bind, ret, gemAt.
  repeat match goal with
         | |- context [if ?b then _ else _] => destruct b
         end; simpl; repeat constructor.
Qed.

(** X16.  One spawn opportunity yields nothing, one object, or a hay
    bale with a pie worth 100 floating above it in the same lane.  What
    is spawned is a hay bale, a pie, a letter or a scarecrow, never a
    portal or a projectile, and a scarecrow only from level 2 on. *)
Theorem spawn_is_exclusive (st : Store.t) (d next : Q)
  (kept : list GameObject) (g : Gen) :
  (pushed (fst (spawn cfg rnd st d next kept g)) = []
   \/ (exists o, pushed (fst (spawn cfg rnd st d next kept g)) = [o]
                 /\ (type o = OBSTACLE \/ type o = GEM \/ type o = LETTER
                     \/ (type o = ALIEN /\ hasFired o = Some false)))
   \/ (exists bale pie,
          pushed (fst (spawn cfg rnd st d next kept g)) = [bale; pie]
          /\ type bale = OBSTACLE /\ type pie = GEM
          /\ points pie = Some 100%Z
          /\ X (position pie) = X (position bale)
          /\ Y (position bale) = 0.7 /\ Y (position pie) = 2.4))
  /\ (forall o, In o (pushed (fst (spawn cfg rnd st d next kept g))) ->
      type o = ALIEN -> (2 <= Store.level st)%Z).
Proof.
  unfold spawn, spawnLetter, spawnRandom, getRandomLane, random, uuidv4,
    bind, ret, gemAt.
  destruct (2 <=? Store.level st)%Z eqn:El.
  - apply Z.leb_le in El.
    repeat match goal with
           | |- context [if ?b then _ else _] => destruct b
           end; cbn [fst pushed]; (split; [| intros; exact El]);
      try (left; reflexivity);
      try (right; left; eexists; split; [reflexivity |]; cbn [type hasFired];
           tauto);
      right; right; do 2 eexists; split; [reflexivity |];
      cbn; repeat split; reflexivity.
  - repeat match goal with
           | |- context [if ?b then _ else _] => destruct b
           end; cbn [fst pushed];
      (split;
       [| intros o Hin Ht; simpl in Hin;
          repeat match goal with
                 | H : _ \/ _ |- _ => destruct H as [H | H]
                 | H : False |- _ => destruct H
                 | H : _ = o |- _ => subst o; simpl in Ht
                 end; discriminate]);
      try (left; reflexivity);
      try (right; left; eexists; split; [reflexivity |]; cbn [type hasFired];
           tauto);
      right; right; do 2 eexists; split; [reflexivity |];
      cbn; repeat split; reflexivity.
Qed.

Lemma minOf_le_init xs : forall a, Num.minOf a xs <= a.
Proof.
  unfold Num.minOf. induction xs as [| x xs IH]; intros a; simpl; [lra |].
  eapply Qle_trans; [apply IH | apply Q.le_min_l].
Qed.

Lemma minOf_le_each xs : forall a y, In y xs -> Num.minOf a xs <= y.
Proof.
  unfold Num.minOf. induction xs as [| x xs IH]; intros a y; simpl; [tauto |].
  intros [<- | Hin].
  - eapply Qle_trans; [apply (minOf_le_init xs) | apply Q.le_min_r].
  - now apply IH.
Qed.

(** [furthestZ] is at or before every object that is not a projectile. *)
Lemma furthestZOf_le kept o :
  In o kept -> type o <> MISSILE ->
  furthestZOf kept <= Z_ (position o).
Proof.
  intros Hin Ht. unfold furthestZOf.
  assert (Hf : In o (filter (fun o0 => negb (ObjectType_eqb (type o0) MISSILE))
                            kept)).
  { apply filter_In. split; [exact Hin |].
    destruct (type o); simpl; congruence. }
  destruct (filter _ kept) as [| o0 os]; [destruct Hf |].
  destruct Hf as [-> | Hf].
  - apply minOf_le_init.
  - apply minOf_le_each.
    exact (in_map (fun o' => Z_ (position o')) os o Hf).
Qed.

(** X17.  Whatever is spawned is placed at or beyond the spawn distance,
    also when the store holds no object at all, and at least
    [12 + 0.4 * speed] ahead of every object in the store that is not a
    projectile. *)
Theorem spawn_keeps_gap (st : Store.t) (d next : Q) (kept : list GameObject)
  (g : Gen) (o' : GameObject)
  (Hnew : In o' (pushed (fst (spawn cfg rnd st d next kept g)))) :
  Z_ (position o') <= - SPAWN_DISTANCE cfg
  /\ (forall o, In o kept -> type o <> MISSILE ->
      Z_ (position o') + (12 + Store.speed st * 0.4) <= Z_ (position o)).
Proof.
  pose proof (spawn_pushed_at st d next kept g) as Hat.
  rewrite Forall_forall in Hat. destruct (Hat o' Hnew) as [_ Hz].
  rewrite Hz. unfold spawnZOf.
  pose proof (Q.le_min_l (furthestZOf kept - (12 + Store.speed st * 0.4))
                         (- SPAWN_DISTANCE cfg)) as H1.
  pose proof (Q.le_min_r (furthestZOf kept - (12 + Store.speed st * 0.4))
                         (- SPAWN_DISTANCE cfg)) as H2.
  split; [exact H2 |].
  intros o Hold Hstatic.
  pose proof (furthestZOf_le kept o Hold Hstatic) as Hf. lra.
Qed.

(** X18.  A frame while PLAYING advances the distance travelled by
    [speed * min(delta, 0.05)]: with a speed that is not negative this is
    never more than [speed * 0.05], however long the frame took, and it
    is [speed * delta] for a frame of at most 50 ms.  Outside PLAYING the
    frame leaves the simulation as it is. *)
Theorem frame_distance_clamped (f : FrameIn) (s : Sim) :
  (Store.status (store (world s)) = PLAYING ->
   0 <= Store.speed (store (world s)) ->
   distanceTraveled (refs (useFrame cfg rnd f s))
   = distanceTraveled (refs s)
     + Store.speed (store (world s)) * safeDeltaOf (delta f)
   /\ distanceTraveled (refs (useFrame cfg rnd f s))
      <= distanceTraveled (refs s) + Store.speed (store (world s)) * 0.05
   /\ (delta f <= 0.05 ->
       distanceTraveled (refs (useFrame cfg rnd f s))
       == distanceTraveled (refs s)
          + Store.speed (store (world s)) * delta f))
  /\ (Store.status (store (world s)) <> PLAYING ->
      useFrame cfg rnd f s = s).
Proof.
  split; [| apply useFrame_idle].
  intros Hs Hsp.
  destruct (useFrame_playing cfg rnd f s Hs) as (Hr & _). cbv zeta in Hr.
  rewrite Hr. cbn [distanceTraveled].
  split; [reflexivity | split].
  - pose proof (safeDelta_le (delta f)) as Hd.
    assert (Store.speed (store (world s)) * safeDeltaOf (delta f)
            <= Store.speed (store (world s)) * 0.05).
    { rewrite !(Qmult_comm (Store.speed (store (world s)))).
      now apply Qmult_le_compat_r. }
    lra.
  - intros Hd. unfold safeDeltaOf. rewrite (Q.min_l _ _ Hd). reflexivity.
Qed.

End SpawnShape.

Lemma spawn_keeps_gap_witness :
  Z_ (position
        (LevelManager.gemAt Sample.cfg 100
           (Qfloor (0.5 * inject_Z (3 / 2 * 2 + 1)) - 3 / 2)%Z 1.2
           (LevelManager.spawnZOf Sample.cfg 22.5 []) 50))
  <= - 120.
Proof.
  refine (proj1 (spawn_keeps_gap Sample.cfg Sample.rnd Sample.storeFull
                   200 150 [] (LevelManager.mkGen 0 100) _ _)).
  vm_compute. left. reflexivity.
Defined.

Lemma frame_distance_clamped_witness :
  LevelManager.distanceTraveled
    (LevelManager.refs
       (LevelManager.useFrame Sample.cfg Sample.rnd
          (LevelManager.mkFrameIn 3 Sample.origin 0%Z)
          (Sample.simWith Sample.store0 [] 10 150)))
  <= 10 + 22.5 * 0.05.
Proof.
  destruct (frame_distance_clamped Sample.cfg Sample.rnd
              (LevelManager.mkFrameIn 3 Sample.origin 0%Z)
              (Sample.simWith Sample.store0 [] 10 150)) as [H _].
  destruct H as (_ & Hle & _).
  - reflexivity.
  - simpl. lra.
  - exact Hle.
Defined.

(** ** Pickups *)

Section Pickups.

Import LevelManager.

Variable cfg : Config.

Lemma HitCondition_pickup_tests pp prevZ obj :
  isDamageSource (type obj) = false ->
  type obj <> SHOP_PORTAL ->
  HitCondition pp prevZ obj ->
  Num.ltb prevZ (Z_ pp + 2.0) = true
  /\ Num.gtb (Z_ (position obj)) (Z_ pp - 2.0) = true
  /\ Num.ltb (Qabs (X (position obj) - X pp)) 0.9 = true
  /\ Num.ltb (Qabs (Y (position obj) - Y pp)) 2.5 = true
  /\ ObjectType_eqb (type obj) SHOP_PORTAL = false.
Proof.
  intros Hs Hp ((H1 & H2) & H3 & H4).
  repeat split.
  - apply ltb_lt. lra.
  - apply gtb_gt. lra.
  - apply ltb_lt. exact H3.
  - apply ltb_lt. unfold verticalHit in H4.
    destruct (type obj); simpl in *; try discriminate; try exact H4.
    congruence.
  - destruct (type obj); simpl in *; congruence.
Qed.

(** X19.  Touching an active pie or letter consumes it without any
    damage: the object is deactivated and kept until pruned, the player's
    refs are untouched, [takeDamage] is not called, and one particle
    burst is dispatched at the object.  A pie calls [collectGem] with its
    points, or with 50 when it has none (or zero); a letter calls
    [collectLetter] with its target index; a letter without a target
    index is consumed without any store call. *)
Theorem pickup_outcomes (imm : bool) (now : Z) (pp : Vec3) (prevZ : Q)
  (obj : GameObject) (p : Player.Refs) (w : World)
  (Hactive : active obj = true)
  (Hkind : type obj = GEM \/ type obj = LETTER)
  (Hhit : HitCondition pp prevZ obj) :
  cobj (collide cfg imm now pp prevZ obj p w) = deactivate obj
  /\ keep (collide cfg imm now pp prevZ obj p w) = true
  /\ cplayer (collide cfg imm now pp prevZ obj p w) = p
  /\ countTakeDamage (cworld (collide cfg imm now pp prevZ obj p w))
     = countTakeDamage w
  /\ (type obj = GEM ->
      log (cworld (collide cfg imm now pp prevZ obj p w))
      = log w ++ [CallCollectGem (pointsOr50 obj);
                  DispatchParticleBurst (position obj) (colorOrDefault obj)]
      /\ (points obj = None \/ points obj = Some 0%Z -> pointsOr50 obj = 50%Z))
  /\ (forall i, type obj = LETTER -> targetIndex obj = Some i ->
      log (cworld (collide cfg imm now pp prevZ obj p w))
      = log w ++ [CallCollectLetter i;
                  DispatchParticleBurst (position obj) (colorOrDefault obj)])
  /\ (type obj = LETTER -> targetIndex obj = None ->
      cworld (collide cfg imm now pp prevZ obj p w)
      = mkWorld (store w)
          (log w ++ [DispatchParticleBurst (position obj) (colorOrDefault obj)])).
Proof.
  assert (Hs : isDamageSource (type obj) = false)
    by (destruct Hkind as [-> | ->]; reflexivity).
  assert (Hp : type obj <> SHOP_PORTAL)
    by (destruct Hkind as [H | H]; rewrite H; discriminate).
  destruct (HitCondition_pickup_tests pp prevZ obj Hs Hp Hhit)
    as (T1 & T2 & T3 & T4 & T5).
  assert (Hc : collide cfg imm now pp prevZ obj p w
    = mkCollision (deactivate obj) true true p
        (emit (DispatchParticleBurst (position obj) (colorOrDefault obj))
           (match type obj, targetIndex obj with
            | LETTER, Some i =>
                mkWorld (Store.collectLetter (List.length (TARGET_WORD cfg)) i
                           (store (match type obj with
                                   | GEM => mkWorld (Store.collectGem (pointsOr50 obj) (store w))
                                                    (log w ++ [CallCollectGem (pointsOr50 obj)])
                                   | _ => w
                                   end)))
                        (log (match type obj with
                              | GEM => mkWorld (Store.collectGem (pointsOr50 obj) (store w))
                                               (log w ++ [CallCollectGem (pointsOr50 obj)])
                              | _ => w
                              end) ++ [CallCollectLetter i])
            | _, _ =>
                match type obj with
                | GEM => mkWorld (Store.collectGem (pointsOr50 obj) (store w))
                                 (log w ++ [CallCollectGem (pointsOr50 obj)])
                | _ => w
                end
            end))).
  { unfold collide. rewrite Hactive, T5, T1, T2. cbn [andb]. cbv zeta.
    rewrite T3, Hs, T4. reflexivity. }
  rewrite Hc. cbn [cobj keep cplayer cworld]. unfold emit, countTakeDamage.
  split; [reflexivity | split; [reflexivity | split; [reflexivity |]]].
  split.
  - destruct Hkind as [Hk | Hk]; rewrite Hk; destruct (targetIndex obj);
      cbn [log]; rewrite ?countEffect_app; cbn [isCallTakeDamage]; lia.
  - split; [| split].
    + intros Hk. rewrite Hk. split.
      * destruct (targetIndex obj); cbn [log]; now rewrite <- app_assoc.
      * unfold pointsOr50. intros [-> | ->]; reflexivity.
    + intros i Hk Hi. rewrite Hk, Hi. cbn [log]. now rewrite <- app_assoc.
    + intros Hk Hi. rewrite Hk, Hi. reflexivity.
Qed.

End Pickups.

Lemma pickup_outcomes_witness :
  log (LevelManager.cworld
         (LevelManager.collide Sample.cfg false 0%Z Sample.origin (-2)
            (LevelManager.gemAt Sample.cfg 5 0 1.2 (-1) 100)
            Player.initial (mkWorld Sample.store0 [])))
  = [] ++ [CallCollectGem 100;
           DispatchParticleBurst
             (position (LevelManager.gemAt Sample.cfg 5 0 1.2 (-1) 100))
             "#ff9900"].
Proof.
  destruct (pickup_outcomes Sample.cfg false 0%Z Sample.origin (-2)
              (LevelManager.gemAt Sample.cfg 5 0 1.2 (-1) 100)
              Player.initial (mkWorld Sample.store0 []))
    as (_ & _ & _ & _ & Hg & _).
  - reflexivity.
  - now left.
  - unfold LevelManager.HitCondition, LevelManager.straddles,
      LevelManager.lateralHit, LevelManager.verticalHit. simpl.
    repeat split; try lra; apply Qabs_Qlt_condition; vm_compute;
      split; reflexivity.
  - destruct Hg as [Hl _]; [reflexivity | exact Hl].
Defined.

(* ================================================================== *)
(** * Properties of the particle system *)

Section Particles.

Import ParticleSystem.

Variable rnd : nat -> Q.

Hypothesis rnd_nonneg : forall n, 0 <= rnd n.

Lemma revive_alive position color c p :
  isDead (revive rnd position color c p) = false.
Proof.
  unfold isDead, revive. cbn [life]. apply leb_gt.
  pose proof (rnd_nonneg c). lra.
Qed.

Lemma countDead_cons p ps :
  countDead (p :: ps)
  = ((if isDead p then 1 else 0) + countDead ps)%nat.
Proof. unfold countDead. simpl. destruct (isDead p); reflexivity. Qed.

Lemma countDead_app ps qs :
  countDead (ps ++ qs) = (countDead ps + countDead qs)%nat.
Proof. unfold countDead. now rewrite filter_app, length_app. Qed.

(** The loop from a given count on. *)
Lemma burstFrom_spec position color ps : forall spawned c,
  (spawned < burstAmount)%nat ->
  List.length (fst (burstFrom rnd position color spawned c ps))
  = List.length ps
  /\ countDead (fst (burstFrom rnd position color spawned c ps))
     = (countDead ps - Nat.min (burstAmount - spawned) (countDead ps))%nat
  /\ snd (burstFrom rnd position color spawned c ps)
     = (c + 7 * Nat.min (burstAmount - spawned) (countDead ps))%nat
  /\ Forall2 (fun p p' => isDead p = false -> p' = p)
             ps (fst (burstFrom rnd position color spawned c ps)).
Proof.
  assert (Hsame : forall qs : list Particle,
            Forall2 (fun p p' => isDead p = false -> p' = p) qs qs).
  { induction qs; constructor; auto. }
  induction ps as [| p ps IH]; intros spawned c Hs; cbn [burstFrom].
  - cbn [fst snd]. change (countDead []) with 0%nat.
    repeat split; auto; lia.
  - rewrite countDead_cons. destruct (isDead p) eqn:Ed.
    + cbv zeta. destruct (burstAmount <=? S spawned)%nat eqn:Eb.
      * apply Nat.leb_le in Eb. cbn [fst snd].
        rewrite countDead_cons, revive_alive. cbn [List.length].
        split; [reflexivity | split; [lia | split; [lia |]]].
        constructor; [congruence | apply Hsame].
      * apply Nat.leb_gt in Eb.
        destruct (IH (S spawned) (c + 7)%nat Eb) as (Hl & Hc & Hn & Hf).
        cbn [fst snd]. rewrite countDead_cons, revive_alive, Hc, Hn.
        cbn [List.length].
        split; [lia | split; [lia | split; [lia |]]].
        constructor; [congruence | exact Hf].
    + cbv zeta. destruct (IH spawned c Hs) as (Hl & Hc & Hn & Hf).
      cbn [fst snd]. rewrite countDead_cons, Ed, Hc, Hn.
      cbn [List.length].
      split; [lia | split; [lia | split; [lia |]]].
      constructor; [reflexivity | exact Hf].
Qed.

(** X20.  A burst (with random numbers that are not negative) revives
    the first free particles among the first [PARTICLE_COUNT], at most 30
    of them and all of them when fewer are free; it keeps the number of
    particles, leaves every particle in flight exactly as it is, and
    draws seven random numbers per revived particle. *)
Theorem burst_revives_at_most_30 (position : Vec3) (color : string)
  (c : nat) (ps : list Particle) :
  List.length (fst (handleExplosion rnd position color c ps))
  = List.length ps
  /\ countDead (fst (handleExplosion rnd position color c ps))
     = (countDead ps
        - Nat.min 30 (countDead (firstn PARTICLE_COUNT ps)))%nat
  /\ snd (handleExplosion rnd position color c ps)
     = (c + 7 * Nat.min 30 (countDead (firstn PARTICLE_COUNT ps)))%nat
  /\ Forall2 (fun p p' => isDead p = false -> p' = p)
             ps (fst (handleExplosion rnd position color c ps)).
Proof.
  unfold handleExplosion. cbn [fst snd].
  destruct (burstFrom_spec position color (firstn PARTICLE_COUNT ps) 0 c)
    as (Hl & Hc & Hn & Hf); [unfold burstAmount; lia |].
  change (burstAmount - 0)%nat with 30%nat in *.
  split; [| split; [| split]].
  - rewrite length_app, Hl, <- length_app, firstn_skipn. reflexivity.
  - assert (Hps : countDead ps
                  = (countDead (firstn PARTICLE_COUNT ps)
                     + countDead (skipn PARTICLE_COUNT ps))%nat)
      by (rewrite <- countDead_app, firstn_skipn; reflexivity).
    rewrite countDead_app, Hc, Hps. lia.
  - exact Hn.
  - rewrite <- (firstn_skipn PARTICLE_COUNT ps) at 1.
    apply Forall2_app; [exact Hf |].
    generalize (skipn PARTICLE_COUNT ps). clear.
    induction l; constructor; auto.
Qed.

End Particles.

Section ParticleFrames.

Import ParticleSystem.

(** X21.  A frame of the particle system leaves used-up particles
    exactly as they are and takes [min(delta, 0.1)] off the life of every
    particle in flight; with an elapsed time that is not negative no
    particle comes back to life, so the number of free particles never
    goes down in a frame. *)
Theorem particle_frame_never_revives (delta : Q) (ps : list Particle)
  (Hdelta : 0 <= delta) :
  List.length (useFrame delta ps) = List.length ps
  /\ Forall2 (fun p p' =>
                (isDead p = true -> p' = p)
                /\ (isDead p = false ->
                    life p' = life p - Qmin delta 0.1
                    /\ life p' <= life p))
             ps (useFrame delta ps)
  /\ (countDead ps <= countDead (useFrame delta ps))%nat.
Proof.
  assert (Hsd : 0 <= Qmin delta 0.1) by (apply Q.min_glb; lra).
  unfold useFrame. cbv zeta.
  split; [apply length_map | split].
  - induction ps as [| p ps IH]; simpl; constructor; auto.
    unfold stepParticle, isDead, Num.gtb, Num.ltb, Num.leb.
    destruct (Qle_bool (life p) 0); simpl; split; intros H;
      try discriminate; auto.
    split; [reflexivity | lra].
  - induction ps as [| p ps IH]; simpl; [lia |].
    rewrite !countDead_cons.
    assert (Hp : isDead p = true -> isDead (stepParticle (Qmin delta 0.1) p) = true).
    { unfold stepParticle, isDead, Num.gtb, Num.ltb, Num.leb.
      destruct (Qle_bool (life p) 0) eqn:E; simpl; intros H;
        [exact E | discriminate]. }
    destruct (isDead p); [rewrite Hp by reflexivity; lia |].
    destruct (isDead _); lia.
Qed.

End ParticleFrames.

Lemma burst_revives_at_most_30_witness :
  ParticleSystem.countDead
    (fst (ParticleSystem.handleExplosion Sample.rnd Sample.origin "#deb887" 0
            Sample.particles))
  = 0%nat.
Proof.
  destruct (burst_revives_at_most_30 Sample.rnd
              ltac:(intros n; unfold Sample.rnd; lra)
              Sample.origin "#deb887"%string 0 Sample.particles)
    as (_ & Hc & _).
  rewrite Hc. reflexivity.
Defined.

Lemma particle_frame_never_revives_witness :
  (ParticleSystem.countDead Sample.particles
   <= ParticleSystem.countDead (ParticleSystem.useFrame 0.5 Sample.particles))%nat.
Proof.
  apply (particle_frame_never_revives 0.5 Sample.particles). lra.
Defined.

(* ================================================================== *)
(** * Lanes, guides and hearts *)

Section Guides.

Import Environment.

Lemma separators_member LW n k :
  (0 <= k <= n)%Z ->
  In (- (inject_Z n * LW) / 2 + inject_Z k * LW) (separators LW n).
Proof.
  intros Hk. unfold separators. cbv zeta. apply in_map_iff.
  exists (Z.to_nat k). split.
  - now rewrite Z2Nat.id by lia.
  - apply in_seq. lia.
Qed.

(** X22.  There are [laneCount + 1] lane guides.  With an odd lane count
    every lane the player can be in is centred between two neighbouring
    guides; with an even lane count the lanes the player can be in lie on
    the guides themselves. *)
Theorem lanes_and_guides (LW : Q) (laneCount lane : Z)
  (Hcount : (0 <= laneCount)%Z)
  (Hlane : (- (laneCount / 2) <= lane <= laneCount / 2)%Z) :
  List.length (separators LW laneCount) = Z.to_nat (laneCount + 1)
  /\ (Z.odd laneCount = true ->
      exists a b, In a (separators LW laneCount)
                  /\ In b (separators LW laneCount)
                  /\ b == a + LW
                  /\ inject_Z lane * LW == (a + b) / 2)
  /\ (Z.even laneCount = true ->
      exists a, In a (separators LW laneCount) /\ inject_Z lane * LW == a).
Proof.
  assert (Hm : (0 <= laneCount / 2)%Z) by (apply Z.div_pos; lia).
  pose proof (Z.div_mod laneCount 2 ltac:(lia)) as Hdm.
  rewrite Zmod_odd in Hdm.
  split; [| split].
  - unfold separators. cbv zeta. now rewrite length_map, length_seq.
  - intros Ho. rewrite Ho in Hdm.
    exists (- (inject_Z laneCount * LW) / 2
            + inject_Z (lane + laneCount / 2) * LW),
           (- (inject_Z laneCount * LW) / 2
            + inject_Z (lane + laneCount / 2 + 1) * LW).
    split; [apply separators_member; lia |].
    split; [apply separators_member; lia |].
    assert (HQ : inject_Z laneCount == 2 * inject_Z (laneCount / 2) + 1).
    { rewrite Hdm at 1. rewrite inject_Z_plus, inject_Z_mult. reflexivity. }
    rewrite !inject_Z_plus. change (inject_Z 1) with 1.
    rewrite !HQ. split; field.
  - intros He. rewrite <- Z.negb_odd in He. apply negb_true_iff in He.
    rewrite He in Hdm.
    exists (- (inject_Z laneCount * LW) / 2
            + inject_Z (lane + laneCount / 2) * LW).
    split; [apply separators_member; lia |].
    assert (HQ : inject_Z laneCount == 2 * inject_Z (laneCount / 2)).
    { rewrite Hdm at 1. rewrite inject_Z_plus, inject_Z_mult.
      change (inject_Z 0) with 0. change (inject_Z 2) with 2. ring. }
    rewrite !inject_Z_plus. rewrite !HQ. field.
Qed.

End Guides.

Section Hearts.

Lemma filled_prefix (lives : Z) (n : nat) :
  List.length (filter (fun b : bool => b)
                 (map (fun i => (Z.of_nat i <? lives)%Z) (seq 0 n)))
  = Nat.min n (Z.to_nat lives).
Proof.
  induction n as [| n IH]; [reflexivity |].
  rewrite seq_S, map_app, filter_app, length_app, IH.
  cbn [map filter Nat.add].
  destruct (Z.of_nat n <? lives)%Z eqn:E; cbn [List.length].
  - apply Z.ltb_lt in E. lia.
  - apply Z.ltb_ge in E. lia.
Qed.

(** X23.  The playing screen shows [maxLives] hearts, of which
    [min(lives, maxLives)] are filled, and none when the lives are zero
    or below; the filled hearts come first. *)
Theorem hearts_show_lives (maxLives lives : Z) (Hmax : (0 <= maxLives)%Z) :
  Z.of_nat (List.length (HUD.hearts maxLives lives)) = maxLives
  /\ Z.of_nat (List.length (filter (fun b : bool => b)
                              (HUD.hearts maxLives lives)))
     = Z.max 0 (Z.min lives maxLives)
  /\ (forall i, nth_error (HUD.hearts maxLives lives) i = Some true ->
      forall j, (j <= i)%nat ->
                nth_error (HUD.hearts maxLives lives) j = Some true).
Proof.
  unfold HUD.hearts. split; [| split].
  - rewrite length_map, length_seq. lia.
  - rewrite filled_prefix. lia.
  - intros i Hi j Hj.
    rewrite nth_error_map in *.
    destruct (nth_error (seq 0 (Z.to_nat maxLives)) i) as [a |] eqn:Ea;
      [| discriminate].
    assert (Hl : (i < Z.to_nat maxLives)%nat).
    { rewrite <- (length_seq (Z.to_nat maxLives) 0).
      apply nth_error_Some. rewrite Ea. discriminate. }
    assert (Ha : a = i).
    { apply nth_error_nth with (d := 0%nat) in Ea.
      rewrite seq_nth in Ea by exact Hl. lia. }
    subst a. simpl in Hi. injection Hi as Hi. apply Z.ltb_lt in Hi.
    assert (Ej : nth_error (seq 0 (Z.to_nat maxLives)) j = Some j).
    { rewrite nth_error_nth' with (d := 0%nat) by (rewrite length_seq; lia).
      rewrite seq_nth by lia. reflexivity. }
    rewrite Ej. simpl. f_equal. apply Z.ltb_lt. lia.
Qed.

End Hearts.

Lemma lanes_and_guides_witness :
  exists a b, In a (Environment.separators 2.2 3)
              /\ In b (Environment.separators 2.2 3)
              /\ b == a + 2.2
              /\ inject_Z 1 * 2.2 == (a + b) / 2.
Proof.
  destruct (lanes_and_guides 2.2 3 1) as (_ & Ho & _).
  - lia.
  - change (3 / 2)%Z with 1%Z. lia.
  - apply Ho. reflexivity.
Defined.

Lemma hearts_show_lives_witness :
  Z.of_nat (List.length (filter (fun b : bool => b) (HUD.hearts 3 5)))
  = Z.max 0 (Z.min 5 3).
Proof.
  apply (hearts_show_lives 3 5). lia.
Defined.

Lemma frame_damages_at_most_once_witness :
  countTakeDamage
    (LevelManager.world
       (LevelManager.useFrame Sample.cfg Sample.rnd Sample.frame0
          (LevelManager.mkSim
             (LevelManager.mkRefs [Sample.obstacleAt (-1)] PLAYING 1 0 150)
             (Player.mkRefs 0 0 0 (Player.mkPhysics 0 false 0 0 0) true 4000)
             (mkWorld Sample.store0 []) (LevelManager.mkGen 0 100))))
  = 0%nat.
Proof.
  refine (proj2 (frame_damages_at_most_once Sample.cfg Sample.rnd Sample.frame0
                   (LevelManager.mkSim
                      (LevelManager.mkRefs [Sample.obstacleAt (-1)] PLAYING 1 0 150)
                      (Player.mkRefs 0 0 0 (Player.mkPhysics 0 false 0 0 0)
                                     true 4000)
                      (mkWorld Sample.store0 []) (LevelManager.mkGen 0 100)))
                _).
  reflexivity.
Defined.

Lemma scarecrow_fires_once_witness :
  LevelManager.firesNow 22.5 0.02 (Sample.firedScarecrowAt (-50)) = false.
Proof.
  destruct (scarecrow_fires_once Sample.cfg false 22.5 0.02 Sample.frame0
              (LevelManager.mkLoop false [] [] [] Player.initial
                 (mkWorld Sample.store0 []) (LevelManager.mkGen 0 0))
              (Sample.firedScarecrowAt (-50)))
    as (o3 & _ & _ & _ & H & _).
  apply H. reflexivity.
Defined.

Lemma spawn_is_exclusive_witness :
  ~ exists o,
      In o (LevelManager.pushed
              (fst (LevelManager.spawn Sample.cfg Sample.rnd Sample.store0
                      0 150 [] (LevelManager.mkGen 0 100))))
      /\ type o = ALIEN.
Proof.
  intros (o & Hin & Ht).
  pose proof (proj2 (spawn_is_exclusive Sample.cfg Sample.rnd Sample.store0
                       0 150 [] (LevelManager.mkGen 0 100)) o Hin Ht) as H.
  simpl in H. lia.
Defined.
